(** * Postman O&M tool

    A shallow embedding of the application logic of [src/App.tsx] and
    [src/components/RequestEditor.tsx], over the interfaces of the
    repository's [types] module, followed by the properties of the
    specification that were checked against it.

    Conventions of the embedding.
    - A JavaScript string is a Rocq [string]; text is read as ASCII / UTF-8
      bytes, and the case mapping of [toLowerCase] is the ASCII one. What
      is proved of the search is stated for names and queries in ASCII.
    - JSON numbers are kept as exact decimals; rounding to binary64 is not
      part of the embedding. What is proved of the text of a value is
      stated for the numbers binary64 prints digit for digit ([plain]).
    - [null] of a [T | null] state field is [None].
    - A handler is a function from the state before the event to the state
      after it, paired with the effects it issued (alerts, timers, network
      requests). The two asynchronous operations are split at their
      suspension point into a start step and a completion step. *)

From Stdlib Require Import ZArith Ascii String DecimalString Lia.
From Stdlib Require Import DecimalNat DecimalFacts.
From stdpp Require Import base option list strings.

(** ** String primitives of the platform *)

Module JSString.

Definition dquote : ascii := "034"%char.
Definition backslash : ascii := "092"%char.
Definition LF : ascii := "010"%char.

Definition str (c : ascii) : string := String c EmptyString.

Definition in_range (lo hi : nat) (c : ascii) : bool :=
  (lo <=? nat_of_ascii c) && (nat_of_ascii c <=? hi).

(** [ch.toLowerCase()] on one character: A-Z move to a-z. *)
Definition lower_char (c : ascii) : ascii :=
  if in_range 65 90 c then ascii_of_nat (nat_of_ascii c + 32) else c.

(** [String.prototype.toLowerCase]. *)
Fixpoint toLowerCase (s : string) : string :=
  match s with
  | EmptyString => EmptyString
  | String c s' => String (lower_char c) (toLowerCase s')
  end.

(** [s.includes(t)]: [t] occurs in [s] at some position. *)
Fixpoint includes (s t : string) : bool :=
  String.prefix t s ||
  match s with
  | EmptyString => false
  | String _ s' => includes s' t
  end.

(** The decimal text of a non-negative integer, as a template literal
    prints an array index. *)
Definition of_nat (n : nat) : string :=
  NilEmpty.string_of_uint (Nat.to_uint n).

Fixpoint repeat (c : ascii) (n : nat) : string :=
  match n with
  | O => EmptyString
  | S n' => String c (repeat c n')
  end.

(** [parts.join(sep)] *)
Fixpoint join (sep : string) (parts : list string) : string :=
  match parts with
  | [] => EmptyString
  | [p] => p
  | p :: rest => p +:+ sep +:+ join sep rest
  end.

End JSString.

(** ** JSON values, [JSON.parse] and [JSON.stringify] *)

Module JSON.
Import JSString.

(** A finite decimal: the significant [digits] (no leading and no
    trailing zero), and [point], the position of the decimal point
    relative to their start, so that the value is
    [0.digits * 10 ^ point]. Zero has no digits. *)
Record number : Type := mkNumber {
  negative : bool;
  digits : list ascii;
  point : Z
}.

Definition zero : number :=
  {| negative := false; digits := []; point := 0 |}.

#[local] Unset Elimination Schemes.
Inductive value : Type :=
| Null
| Bool (b : bool)
| Number (n : number)
| Str (s : string)
| Array (elements : list value)
| Object (members : list (string * value)).
#[local] Set Elimination Schemes.

(** *** Numbers *)

Definition is_digit (c : ascii) : bool := in_range 48 57 c.

Definition is_zero_digit (c : ascii) : bool :=
  Nat.eqb (nat_of_ascii c) 48.

Fixpoint span_digits (cs : list ascii) : list ascii * list ascii :=
  match cs with
  | c :: r =>
      if is_digit c
      then let '(ds, r') := span_digits r in (c :: ds, r')
      else ([], cs)
  | [] => ([], [])
  end.

Definition digits_value (ds : list ascii) : Z :=
  fold_left (fun acc c => 10 * acc + Z.of_nat (nat_of_ascii c - 48))%Z ds 0%Z.

Fixpoint strip_leading_zeros (ds : list ascii) (p : Z) : list ascii * Z :=
  match ds with
  | c :: r =>
      if is_zero_digit c then strip_leading_zeros r (p - 1)%Z else (ds, p)
  | [] => ([], p)
  end.

Fixpoint drop_zeros (ds : list ascii) : list ascii :=
  match ds with
  | c :: r => if is_zero_digit c then drop_zeros r else ds
  | [] => []
  end.

Definition strip_trailing_zeros (ds : list ascii) : list ascii :=
  rev (drop_zeros (rev ds)).

(** The number denoted by integer part [int], fraction [frac] and
    decimal exponent [exp]. *)
Definition make_number (neg : bool) (int frac : list ascii) (exp : Z)
  : number :=
  let '(ds, p) :=
    strip_leading_zeros (int ++ frac) (Z.of_nat (length int) + exp)%Z in
  match strip_trailing_zeros ds with
  | [] => zero
  | ds' => {| negative := neg; digits := ds'; point := p |}
  end.

Definition lex_fraction (cs : list ascii)
  : option (list ascii * list ascii) :=
  match cs with
  | "."%char :: r =>
      match span_digits r with
      | ([], _) => None
      | (f, r') => Some (f, r')
      end
  | _ => Some ([], cs)
  end.

Definition lex_exponent (cs : list ascii) : option (Z * list ascii) :=
  let after_sign (neg : bool) (r : list ascii) :=
    match span_digits r with
    | ([], _) => None
    | (e, r') =>
        Some ((if neg then - digits_value e else digits_value e)%Z, r')
    end in
  match cs with
  | "e"%char :: r | "E"%char :: r =>
      match r with
      | "+"%char :: r' => after_sign false r'
      | "-"%char :: r' => after_sign true r'
      | _ => after_sign false r
      end
  | _ => Some (0%Z, cs)
  end.

(** The JSON number grammar: an optional minus sign; an integer part
    that is a single 0 or starts with a non-zero digit; an optional
    fraction of a point and at least one digit; an optional exponent of
    e or E, an optional sign and at least one digit. *)
Definition parse_number (word : list ascii) : option number :=
  let '(neg, cs) :=
    match word with
    | "-"%char :: r => (true, r)
    | _ => (false, word)
    end in
  match span_digits cs with
  | ([], _) => None
  | (d :: ds, cs1) =>
      if is_zero_digit d && negb (Nat.eqb (length ds) 0) then None
      else
        match lex_fraction cs1 with
        | None => None
        | Some (frac, cs2) =>
            match lex_exponent cs2 with
            | Some (e, []) => Some (make_number neg (d :: ds) frac e)
            | _ => None
            end
        end
  end.

(** [Number::toString] (radix 10) on a finite value. *)
Definition Number_toString (x : number) : string :=
  match digits x with
  | [] => "0"
  | d :: ds =>
      let k := Z.of_nat (length (digits x)) in
      let n := point x in
      let all := string_of_list_ascii (digits x) in
      let body :=
        if (k <=? n)%Z && (n <=? 21)%Z then
          all +:+ repeat "0" (Z.to_nat (n - k))
        else if (0 <? n)%Z && (n <=? 21)%Z then
          string_of_list_ascii (take (Z.to_nat n) (digits x)) +:+ "." +:+
          string_of_list_ascii (drop (Z.to_nat n) (digits x))
        else if (-6 <? n)%Z && (n <=? 0)%Z then
          "0." +:+ repeat "0" (Z.to_nat (- n)) +:+ all
        else
          let e := (n - 1)%Z in
          let es := (if (e <? 0)%Z then "-" else "+") +:+
                    of_nat (Z.to_nat (Z.abs e)) in
          match ds with
          | [] => str d +:+ "e" +:+ es
          | _ => str d +:+ "." +:+ string_of_list_ascii ds +:+ "e" +:+ es
          end in
      (if negative x then "-" else EmptyString) +:+ body
  end.

(** *** Tokens *)

Inductive token : Type :=
| TLBrace | TRBrace | TLBracket | TRBracket | TColon | TComma
| TString (s : string)
| TNumber (n : number)
| TTrue | TFalse | TNull.

(** The lexer reads one character at a time. Outside a string literal
    it is either between tokens or inside a word (a number or one of
    the three literal names); inside a string literal it keeps the
    characters read so far, newest first. *)
Inductive lex_mode : Type :=
| LStart
| LWord (acc : list ascii)
| LString (acc : list ascii)
| LEscape (acc : list ascii)
| LUnicode (acc : list ascii) (hex : list ascii).

Definition is_whitespace (c : ascii) : bool :=
  let n := nat_of_ascii c in
  Nat.eqb n 32 || Nat.eqb n 9 || Nat.eqb n 10 || Nat.eqb n 13.

Definition structural (c : ascii) : option token :=
  match c with
  | "{"%char => Some TLBrace
  | "}"%char => Some TRBrace
  | "["%char => Some TLBracket
  | "]"%char => Some TRBracket
  | ":"%char => Some TColon
  | ","%char => Some TComma
  | _ => None
  end.

Definition is_word_char (c : ascii) : bool :=
  is_digit c || in_range 97 122 c || in_range 65 90 c ||
  match c with
  | "+"%char | "-"%char | "."%char => true
  | _ => false
  end.

Definition word_token (acc : list ascii) : option token :=
  let w := rev acc in
  match string_of_list_ascii w with
  | "true" => Some TTrue
  | "false" => Some TFalse
  | "null" => Some TNull
  | _ => TNumber <$> parse_number w
  end.

Definition hex_value (c : ascii) : option N :=
  let n := nat_of_ascii c in
  if in_range 48 57 c then Some (N.of_nat (n - 48))
  else if in_range 97 102 c then Some (N.of_nat (n - 87))
  else if in_range 65 70 c then Some (N.of_nat (n - 55))
  else None.

Definition hex4 (hex : list ascii) : option N :=
  match hex with
  | [a; b; c; d] =>
      a' ← hex_value a; b' ← hex_value b;
      c' ← hex_value c; d' ← hex_value d;
      Some (a' * 4096 + b' * 256 + c' * 16 + d')%N
  | _ => None
  end.

Definition byte (n : N) : ascii := ascii_of_N n.

(** The UTF-8 bytes of a code point, newest byte first. *)
Definition utf8_rev (u : N) : list ascii :=
  if (u <? 128)%N then [byte u]
  else if (u <? 2048)%N then
    [byte (128 + u mod 64); byte (192 + u / 64)]
  else if (u <? 65536)%N then
    [byte (128 + u mod 64); byte (128 + (u / 64) mod 64);
     byte (224 + u / 4096)]
  else
    [byte (128 + u mod 64); byte (128 + (u / 64) mod 64);
     byte (128 + (u / 4096) mod 64); byte (240 + u / 262144)].

(** The leading surrogate whose three-byte form ends [acc], if any. *)
Definition leading_surrogate (acc : list ascii) : option (N * list ascii) :=
  match acc with
  | b3 :: b2 :: b1 :: rest =>
      if Nat.eqb (nat_of_ascii b1) 237 && in_range 160 175 b2
         && in_range 128 191 b3
      then Some ((53248 + (N_of_ascii b2 mod 64) * 64
                  + N_of_ascii b3 mod 64)%N, rest)
      else None
  | _ => None
  end.

(** Appends the code unit of a [\uXXXX] escape; a trailing surrogate
    that follows a leading one completes the pair. *)
Definition push_code_unit (u : N) (acc : list ascii) : list ascii :=
  if (56320 <=? u)%N && (u <=? 57343)%N then
    match leading_surrogate acc with
    | Some (hi, rest) =>
        utf8_rev (65536 + (hi - 55296) * 1024 + (u - 56320))%N ++ rest
    | None => utf8_rev u ++ acc
    end
  else utf8_rev u ++ acc.

Definition escape_char (c : ascii) : option ascii :=
  match c with
  | "b"%char => Some "008"%char
  | "f"%char => Some "012"%char
  | "n"%char => Some "010"%char
  | "r"%char => Some "013"%char
  | "t"%char => Some "009"%char
  | "/"%char => Some "/"%char
  | _ =>
      if Ascii.eqb c dquote || Ascii.eqb c backslash then Some c else None
  end.

(** One character outside a word or string: the token it is, or the
    mode it opens. [None] is a syntax error. *)
Definition lex_start (c : ascii) (toks : list token)
  : option (lex_mode * list token) :=
  if is_whitespace c then Some (LStart, toks)
  else if Ascii.eqb c dquote then Some (LString [], toks)
  else
    match structural c with
    | Some t => Some (LStart, t :: toks)
    | None =>
        if is_digit c || in_range 97 122 c || Ascii.eqb c "-"%char
        then Some (LWord [c], toks)
        else None
    end.

(** The lexer's transition; [toks] holds the tokens found so far,
    newest first. *)
Definition lex_step (m : lex_mode) (toks : list token) (c : ascii)
  : option (lex_mode * list token) :=
  match m with
  | LStart => lex_start c toks
  | LWord acc =>
      if is_word_char c then Some (LWord (c :: acc), toks)
      else t ← word_token acc; lex_start c (t :: toks)
  | LString acc =>
      if Ascii.eqb c dquote
      then Some (LStart, TString (string_of_list_ascii (rev acc)) :: toks)
      else if Ascii.eqb c backslash then Some (LEscape acc, toks)
      else if (nat_of_ascii c <? 32)%nat then None
      else Some (LString (c :: acc), toks)
  | LEscape acc =>
      if Ascii.eqb c "u"%char then Some (LUnicode acc [], toks)
      else c' ← escape_char c; Some (LString (c' :: acc), toks)
  | LUnicode acc hex =>
      match hex_value c with
      | None => None
      | Some _ =>
          let hex' := hex ++ [c] in
          if Nat.eqb (length hex') 4
          then u ← hex4 hex'; Some (LString (push_code_unit u acc), toks)
          else Some (LUnicode acc hex', toks)
      end
  end.

Fixpoint lex_from (m : lex_mode) (toks : list token) (text : string)
  : option (list token) :=
  match text with
  | String c rest =>
      match lex_step m toks c with
      | Some (m', toks') => lex_from m' toks' rest
      | None => None
      end
  | EmptyString =>
      match m with
      | LStart => Some (rev toks)
      | LWord acc => t ← word_token acc; Some (rev (t :: toks))
      | _ => None
      end
  end.

Definition lex (text : string) : option (list token) :=
  lex_from LStart [] text.

(** *** Objects

    An object lists its members in the order the engine enumerates
    them: array-index keys first, in ascending order, then the other
    keys in the order they were created. *)

Definition array_index (k : string) : option N :=
  match list_ascii_of_string k with
  | [] => None
  | d :: ds =>
      if forallb is_digit (d :: ds)
         && negb (is_zero_digit d && negb (Nat.eqb (length ds) 0))
         && (length ds <? 10)%nat
      then
        let n := Z.to_N (digits_value (d :: ds)) in
        if (n <? 4294967295)%N then Some n else None
      else None
  end.

Definition lookup (k : string) (members : list (string * value))
  : option value :=
  snd <$> find (fun kv => String.eqb (fst kv) k) members.

(** Where a new key goes: an array index before the first member that
    is no smaller array index; another key at the end. *)
Fixpoint place (k : string) (v : value) (members : list (string * value))
  : list (string * value) :=
  match members with
  | [] => [(k, v)]
  | (k', v') :: rest =>
      match array_index k, array_index k' with
      | Some i, Some i' =>
          if (i <? i')%N then (k, v) :: members
          else (k', v') :: place k v rest
      | Some _, None => (k, v) :: members
      | None, _ => (k', v') :: place k v rest
      end
  end.

Fixpoint replace (k : string) (v : value) (members : list (string * value))
  : list (string * value) :=
  match members with
  | [] => []
  | (k', v') :: rest =>
      if String.eqb k' k then (k', v) :: rest
      else (k', v') :: replace k v rest
  end.

(** Defining the data property [k]: an existing member keeps its place
    and takes the new value. *)
Definition set (k : string) (v : value) (members : list (string * value))
  : list (string * value) :=
  match lookup k members with
  | Some _ => replace k v members
  | None => place k v members
  end.

(** *** Parser *)

(** An array or object under construction: the elements read so far
    (newest first), or the members defined so far, with the key whose
    value is being read. *)
Inductive frame : Type :=
| FArray (elements : list value)
| FObject (members : list (string * value))
| FMember (members : list (string * value)) (key : string).

Inductive expect : Type :=
| EValue
| EValueOrClose
| EKey
| EKeyOrClose
| EColon (key : string)
| EAfter (v : value).

Definition scalar (t : token) : option value :=
  match t with
  | TString s => Some (Str s)
  | TNumber n => Some (Number n)
  | TTrue => Some (Bool true)
  | TFalse => Some (Bool false)
  | TNull => Some Null
  | _ => None
  end.

Definition parse_step (e : expect) (stack : list frame) (t : token)
  : option (expect * list frame) :=
  match e, t, stack with
  | (EValue | EValueOrClose), TLBracket, _ =>
      Some (EValueOrClose, FArray [] :: stack)
  | (EValue | EValueOrClose), TLBrace, _ =>
      Some (EKeyOrClose, FObject [] :: stack)
  | EValueOrClose, TRBracket, FArray [] :: stack' =>
      Some (EAfter (Array []), stack')
  | (EValue | EValueOrClose), _, _ =>
      v ← scalar t; Some (EAfter v, stack)
  | EKeyOrClose, TRBrace, FObject [] :: stack' =>
      Some (EAfter (Object []), stack')
  | (EKey | EKeyOrClose), TString k, _ => Some (EColon k, stack)
  | EColon k, TColon, FObject members :: stack' =>
      Some (EValue, FMember members k :: stack')
  | EAfter v, TComma, FArray elements :: stack' =>
      Some (EValue, FArray (v :: elements) :: stack')
  | EAfter v, TComma, FMember members k :: stack' =>
      Some (EKey, FObject (set k v members) :: stack')
  | EAfter v, TRBracket, FArray elements :: stack' =>
      Some (EAfter (Array (rev (v :: elements))), stack')
  | EAfter v, TRBrace, FMember members k :: stack' =>
      Some (EAfter (Object (set k v members)), stack')
  | _, _, _ => None
  end.

Fixpoint parse_tokens (e : expect) (stack : list frame) (ts : list token)
  : option value :=
  match ts with
  | t :: rest =>
      match parse_step e stack t with
      | Some (e', stack') => parse_tokens e' stack' rest
      | None => None
      end
  | [] =>
      match e, stack with
      | EAfter v, [] => Some v
      | _, _ => None
      end
  end.

(** [JSON.parse(text)]: the value, or [None] where the engine throws a
    [SyntaxError]. *)
Definition parse (text : string) : option value :=
  ts ← lex text; parse_tokens EValue [] ts.

(** *** Serialization *)

Definition hex_digit (n : N) : ascii :=
  if (n <? 10)%N then byte (48 + n) else byte (87 + n).

(** The six-character escape of a code unit, with lower-case digits. *)
Definition unicode_escape (u : N) : string :=
  String backslash (String "u"%char (string_of_list_ascii
    [hex_digit (u / 4096); hex_digit ((u / 256) mod 16);
     hex_digit ((u / 16) mod 16); hex_digit (u mod 16)])).

Definition quote_char (c : ascii) : string :=
  match nat_of_ascii c with
  | 8 => String backslash "b"
  | 9 => String backslash "t"
  | 10 => String backslash "n"
  | 12 => String backslash "f"
  | 13 => String backslash "r"
  | 34 => String backslash (str dquote)
  | 92 => String backslash (str backslash)
  | n => if (n <? 32)%nat then unicode_escape (N.of_nat n) else str c
  end.

(** The characters of a quoted string: control characters, the quote
    and the backslash are escaped, and so is a surrogate that has no
    partner (it is the only text whose bytes start 237, 160..191). *)
Fixpoint quote_chars (s : string) : string :=
  match s with
  | EmptyString => EmptyString
  | String b1 rest =>
      match rest with
      | String b2 (String b3 rest') =>
          if Nat.eqb (nat_of_ascii b1) 237 && in_range 160 191 b2
             && in_range 128 191 b3
          then unicode_escape (53248 + (N_of_ascii b2 mod 64) * 64
                               + N_of_ascii b3 mod 64)%N
               +:+ quote_chars rest'
          else quote_char b1 +:+ quote_chars rest
      | _ => quote_char b1 +:+ quote_chars rest
      end
  end.

(** [QuoteJSONString] *)
Definition quote (s : string) : string :=
  str dquote +:+ quote_chars s +:+ str dquote.

(** [SerializeJSONProperty]: [gap] is the indentation unit and
    [indent] the current indentation. *)
Fixpoint serialize (gap indent : string) (v : value) : string :=
  let inner := indent +:+ gap in
  let wrap (opening closing : string) (parts : list string) : string :=
    match parts with
    | [] => opening +:+ closing
    | _ =>
        if String.eqb gap EmptyString
        then opening +:+ join "," parts +:+ closing
        else opening +:+ str LF +:+ inner
             +:+ join ("," +:+ str LF +:+ inner) parts
             +:+ str LF +:+ indent +:+ closing
    end in
  match v with
  | Null => "null"
  | Bool true => "true"
  | Bool false => "false"
  | Number n => Number_toString n
  | Str s => quote s
  | Array elements =>
      wrap "[" "]" (List.map (serialize gap inner) elements)
  | Object members =>
      wrap "{" "}"
        (List.map
           (fun kv =>
              quote (fst kv)
              +:+ (if String.eqb gap EmptyString then ":" else ": ")
              +:+ serialize gap inner (snd kv))
           members)
  end.

(** [JSON.stringify(v, null, space)] for a numeric [space]: the gap is
    that many spaces, at most ten. *)
Definition stringify (v : value) (space : nat) : string :=
  serialize (repeat " " (Nat.min space 10)) EmptyString v.

(** *** Reading properties of a value of type [any]

    [None] in the position of a value is [undefined]; reading a
    property of [undefined] or [null] throws a [TypeError], which is
    the [None] result. The keys read by this program are never
    [length] nor a method name. *)

Definition get (k : string) (o : option value) : option (option value) :=
  match o with
  | None | Some Null => None
  | Some (Object members) => Some (lookup k members)
  | Some _ => Some None
  end.

Definition char_at (i : nat) (s : string) : option value :=
  match String.get i s with
  | Some c => Some (Str (str c))
  | None => None
  end.

Definition get_index (i : nat) (o : option value) : option (option value) :=
  match o with
  | None | Some Null => None
  | Some (Array elements) => Some (elements !! i)
  | Some (Object members) => Some (lookup (of_nat i) members)
  | Some (Str s) => Some (char_at i s)
  | Some _ => Some None
  end.

End JSON.

(** ** The interfaces of the [types] module

    Each interface is a record in a module of its name. [of_json] reads a
    JSON value at the interface type, which is what a TypeScript [as]
    assertion claims of it: required members are present with their
    type, optional members are absent or have their type. Members the
    interface does not name are not kept, except in a header, which is
    the one object the program prints. *)

Definition as_string (v : JSON.value) : option string :=
  match v with
  | JSON.Str s => Some s
  | _ => None
  end.

Definition as_array (v : JSON.value) : option (list JSON.value) :=
  match v with
  | JSON.Array l => Some l
  | _ => None
  end.

Definition as_object (v : JSON.value) : option (list (string * JSON.value)) :=
  match v with
  | JSON.Object m => Some m
  | _ => None
  end.

Definition required (k : string) (m : list (string * JSON.value))
  : option string :=
  JSON.lookup k m ≫= as_string.

Definition optional (k : string) (m : list (string * JSON.value))
  : option (option string) :=
  match JSON.lookup k m with
  | None => Some None
  | Some v => Some <$> as_string v
  end.

Module PostmanHeader.
(** [members] is the object the header is, as it was read: the members
    of the interface in the order of the file, and any other member the
    file gave it. It is what [JSON.stringify] prints of the header. *)
Record t : Type := mk {
  key : string;
  value : string;
  name : option string;
  type : option string;
  members : list (string * JSON.value)
}.

Definition of_json (v : JSON.value) : option t :=
  m ← as_object v;
  k ← required "key" m;
  x ← required "value" m;
  n ← optional "name" m;
  ty ← optional "type" m;
  Some {| key := k; value := x; name := n; type := ty; members := m |}.

(** The object a header is. *)
Definition to_json (h : t) : JSON.value := JSON.Object (members h).
End PostmanHeader.

Module PostmanBody.
Record t : Type := mk {
  mode : string;
  raw : string
}.

Definition of_json (v : JSON.value) : option t :=
  m ← as_object v;
  md ← required "mode" m;
  r ← required "raw" m;
  Some {| mode := md; raw := r |}.
End PostmanBody.

(** [string | { raw: string }] *)
Inductive PostmanUrl : Type :=
| UrlString (s : string)
| UrlObject (raw : string).

Definition PostmanUrl_of_json (v : JSON.value) : option PostmanUrl :=
  match v with
  | JSON.Str s => Some (UrlString s)
  | JSON.Object m => UrlObject <$> required "raw" m
  | _ => None
  end.

Module PostmanRequest.
Record t : Type := mk {
  method : string;
  header : list PostmanHeader.t;
  body : PostmanBody.t;
  url : PostmanUrl
}.

Definition of_json (v : JSON.value) : option t :=
  m ← as_object v;
  me ← required "method" m;
  hs ← JSON.lookup "header" m ≫= as_array;
  h ← mapM PostmanHeader.of_json hs;
  b ← JSON.lookup "body" m ≫= PostmanBody.of_json;
  u ← JSON.lookup "url" m ≫= PostmanUrl_of_json;
  Some {| method := me; header := h; body := b; url := u |}.
End PostmanRequest.

Module PostmanItem.
Record t : Type := mk {
  name : string;
  request : PostmanRequest.t;
  response : list JSON.value;
  _id : option string
}.

Definition of_json (v : JSON.value) : option t :=
  m ← as_object v;
  n ← required "name" m;
  rq ← JSON.lookup "request" m ≫= PostmanRequest.of_json;
  rs ← JSON.lookup "response" m ≫= as_array;
  i ← optional "_id" m;
  Some {| name := n; request := rq; response := rs; _id := i |}.

Definition set_id (i : string) (x : t) : t :=
  {| name := name x; request := request x; response := response x;
     _id := Some i |}.
End PostmanItem.

Module PostmanInfo.
Record t : Type := mk {
  _postman_id : string;
  name : string;
  schema : string
}.

Definition of_json (v : JSON.value) : option t :=
  m ← as_object v;
  i ← required "_postman_id" m;
  n ← required "name" m;
  sc ← required "schema" m;
  Some {| _postman_id := i; name := n; schema := sc |}.
End PostmanInfo.

Module PostmanCollection.
Record t : Type := mk {
  info : PostmanInfo.t;
  item : list PostmanItem.t
}.

Definition of_json (v : JSON.value) : option t :=
  m ← as_object v;
  i ← JSON.lookup "info" m ≫= PostmanInfo.of_json;
  vs ← JSON.lookup "item" m ≫= as_array;
  its ← mapM PostmanItem.of_json vs;
  Some {| info := i; item := its |}.

Definition set_item (its : list PostmanItem.t) (c : t) : t :=
  {| info := info c; item := its |}.
End PostmanCollection.

(** ** The platform around the application *)

(** What a handler asks of the platform. *)
Inductive Effect : Type :=
| Alert (message : string)
| ReadAsText (file : string)
| SetTimeout (delay : nat)
| Fetch (url method : string) (headers : list (string * string))
        (body : string)
| ClipboardWrite (text : string).

(** A thrown value: an [Error] the program constructs, with its message;
    a [SyntaxError] or [TypeError] raised by the engine; or a value that
    is not an [Error]. *)
Inductive thrown : Type :=
| ErrorObject (message : string)
| SyntaxError
| TypeError
| NotAnError.

(** What [fetch] hands back. *)
Module Response.
Record t : Type := mk {
  ok : bool;
  status : nat;
  statusText : string;
  text : string
}.
End Response.

Inductive fetched : Type :=
| Rejected (e : thrown)
| Resolved (r : Response.t).

(** The configuration and the engine: the injected credential, and the
    messages the engine gives to the errors it raises itself. *)
Record Env : Type := mkEnv {
  GEMINI_API_KEY : option string;
  SyntaxError_message : string;
  TypeError_message : string
}.

(** The two readings of the clock in the timer callback of a send:
    [new Date().toISOString()] and [Date.now()]. *)
Record Clock : Type := mkClock {
  toISOString : string;
  now : Z
}.

(** ** App.tsx: the state of [App] *)

Module MockResponse.
Record t : Type := mk {
  status : nat;
  data : JSON.value;
  time : Z
}.
End MockResponse.

Record AppState : Type := mkApp {
  collection : option PostmanCollection.t;
  selectedItemId : option Z;
  searchQuery : string;
  isUploading : bool;
  response : option MockResponse.t;
  isSending : bool;
  (** [string | null] by its annotation; it receives a value of type
      [any], and [undefined] is read like [null] by its only reader. *)
  geminiResponse : option JSON.value;
  isLoadingGemini : bool;
  geminiError : option string
}.

(** The initial values of the [useState] calls. *)
Definition initial : AppState :=
  {| collection := None; selectedItemId := None;
     searchQuery := EmptyString; isUploading := false; response := None;
     isSending := false; geminiResponse := None; isLoadingGemini := false;
     geminiError := None |}.

Definition setCollection (c : option PostmanCollection.t) (s : AppState)
  : AppState :=
  {| collection := c; selectedItemId := selectedItemId s;
     searchQuery := searchQuery s; isUploading := isUploading s;
     response := response s; isSending := isSending s;
     geminiResponse := geminiResponse s;
     isLoadingGemini := isLoadingGemini s; geminiError := geminiError s |}.

Definition setSelectedItemId (i : option Z) (s : AppState) : AppState :=
  {| collection := collection s; selectedItemId := i;
     searchQuery := searchQuery s; isUploading := isUploading s;
     response := response s; isSending := isSending s;
     geminiResponse := geminiResponse s;
     isLoadingGemini := isLoadingGemini s; geminiError := geminiError s |}.

Definition setSearchQuery (q : string) (s : AppState) : AppState :=
  {| collection := collection s; selectedItemId := selectedItemId s;
     searchQuery := q; isUploading := isUploading s;
     response := response s; isSending := isSending s;
     geminiResponse := geminiResponse s;
     isLoadingGemini := isLoadingGemini s; geminiError := geminiError s |}.

Definition setIsUploading (b : bool) (s : AppState) : AppState :=
  {| collection := collection s; selectedItemId := selectedItemId s;
     searchQuery := searchQuery s; isUploading := b;
     response := response s; isSending := isSending s;
     geminiResponse := geminiResponse s;
     isLoadingGemini := isLoadingGemini s; geminiError := geminiError s |}.

Definition setResponse (r : option MockResponse.t) (s : AppState)
  : AppState :=
  {| collection := collection s; selectedItemId := selectedItemId s;
     searchQuery := searchQuery s; isUploading := isUploading s;
     response := r; isSending := isSending s;
     geminiResponse := geminiResponse s;
     isLoadingGemini := isLoadingGemini s; geminiError := geminiError s |}.

Definition setIsSending (b : bool) (s : AppState) : AppState :=
  {| collection := collection s; selectedItemId := selectedItemId s;
     searchQuery := searchQuery s; isUploading := isUploading s;
     response := response s; isSending := b;
     geminiResponse := geminiResponse s;
     isLoadingGemini := isLoadingGemini s; geminiError := geminiError s |}.

Definition setGeminiResponse (r : option JSON.value) (s : AppState)
  : AppState :=
  {| collection := collection s; selectedItemId := selectedItemId s;
     searchQuery := searchQuery s; isUploading := isUploading s;
     response := response s; isSending := isSending s;
     geminiResponse := r;
     isLoadingGemini := isLoadingGemini s; geminiError := geminiError s |}.

Definition setIsLoadingGemini (b : bool) (s : AppState) : AppState :=
  {| collection := collection s; selectedItemId := selectedItemId s;
     searchQuery := searchQuery s; isUploading := isUploading s;
     response := response s; isSending := isSending s;
     geminiResponse := geminiResponse s;
     isLoadingGemini := b; geminiError := geminiError s |}.

Definition setGeminiError (e : option string) (s : AppState) : AppState :=
  {| collection := collection s; selectedItemId := selectedItemId s;
     searchQuery := searchQuery s; isUploading := isUploading s;
     response := response s; isSending := isSending s;
     geminiResponse := geminiResponse s;
     isLoadingGemini := isLoadingGemini s; geminiError := e |}.

(** ** Handlers

    A handler runs on the state and ends in one of four ways: normally;
    by a throw; suspended at an [await], to be resumed by the step that
    models the settlement; or outside the interfaces, when a value
    asserted to have a type does not have it (the embedding does not
    follow such runs). [catch] and [finally] clauses act on throws and
    normal ends only. *)

Inductive outcome (A : Type) : Type :=
| Normal (a : A)
| Throw (e : thrown)
| Suspended
| Untyped.
Arguments Normal {A} a.
Arguments Throw {A} e.
Arguments Suspended {A}.
Arguments Untyped {A}.

Definition Act (A : Type) : Type :=
  AppState -> outcome A * AppState * list Effect.

#[global] Instance Act_ret : MRet Act :=
  fun A a s => (Normal a, s, []).

#[global] Instance Act_bind : MBind Act :=
  fun A B f m s =>
    match m s with
    | (Normal a, s1, e1) => let '(r, s2, e2) := f a s1 in (r, s2, e1 ++ e2)
    | (Throw t, s1, e1) => (Throw t, s1, e1)
    | (Suspended, s1, e1) => (Suspended, s1, e1)
    | (Untyped, s1, e1) => (Untyped, s1, e1)
    end.

(** A call of a state setter. *)
Definition call (f : AppState -> AppState) : Act unit :=
  fun s => (Normal tt, f s, []).

Definition perform (e : Effect) : Act unit :=
  fun s => (Normal tt, s, [e]).

Definition throw {A : Type} (t : thrown) : Act A :=
  fun s => (Throw t, s, []).

Definition await {A : Type} (e : Effect) : Act A :=
  fun s => (Suspended, s, [e]).

Definition untyped {A : Type} : Act A :=
  fun s => (Untyped, s, []).

Definition try_catch {A : Type} (body : Act A) (handler : thrown -> Act A)
  : Act A :=
  fun s =>
    match body s with
    | (Throw t, s1, e1) => let '(r, s2, e2) := handler t s1 in (r, s2, e1 ++ e2)
    | other => other
    end.

Definition try_finally {A : Type} (body : Act A) (finalizer : Act unit)
  : Act A :=
  fun s =>
    match body s with
    | (Normal a, s1, e1) =>
        match finalizer s1 with
        | (Normal _, s2, e2) => (Normal a, s2, e1 ++ e2)
        | (Throw t, s2, e2) => (Throw t, s2, e1 ++ e2)
        | (Suspended, s2, e2) => (Suspended, s2, e1 ++ e2)
        | (Untyped, s2, e2) => (Untyped, s2, e1 ++ e2)
        end
    | (Throw t, s1, e1) =>
        match finalizer s1 with
        | (Normal _, s2, e2) => (Throw t, s2, e1 ++ e2)
        | (Throw t', s2, e2) => (Throw t', s2, e1 ++ e2)
        | (Suspended, s2, e2) => (Suspended, s2, e1 ++ e2)
        | (Untyped, s2, e2) => (Untyped, s2, e1 ++ e2)
        end
    | other => other
    end.

(** [JSON.parse(text)] *)
Definition JSON_parse (text : string) : Act JSON.value :=
  match JSON.parse text with
  | Some v => mret v
  | None => throw SyntaxError
  end.

(** [v as T], where [of_json] reads [T]. *)
Definition as_type {T : Type} (of_json : JSON.value -> option T)
  (v : JSON.value) : Act T :=
  match of_json v with
  | Some x => mret x
  | None => untyped
  end.

(** *** Import: [handleFileUpload] and the [onload] callback of its reader *)

(** [file] is the first selected file, if any, given by its text. *)
Definition handleFileUpload (file : option string) : Act unit :=
  match file with
  | None => mret tt
  | Some f =>
      call (setIsUploading true);;
      perform (ReadAsText f)
  end.

(** The function mapped over [json.item]: a copy of [item] with [_id]
    set to the index, a hyphen and the name. *)
Definition enrich (index : nat) (item : PostmanItem.t) : PostmanItem.t :=
  PostmanItem.set_id
    (JSString.of_nat index +:+ "-" +:+ PostmanItem.name item) item.

(** Whether [json.item.map(...)] runs to its end on the parsed value:
    [json.item] is an array and none of its elements is [null]. In every
    other case the engine raises a [TypeError] inside the [try] block:
    reading [item] of [null]; reading [map] of [undefined] or [null];
    calling a [map] that is no function, which is the case of every
    [item] that is not an array; reading [name] of an element that is
    [null]. The spread of an element and the template literal raise
    nothing. *)
Definition enrichable (v : JSON.value) : bool :=
  match JSON.get "item" (Some v) with
  | Some (Some (JSON.Array elements)) =>
      forallb (fun x => match x with JSON.Null => false | _ => true end)
              elements
  | _ => false
  end.

(** A parsed value on which the mapping runs to its end is stored
    whether or not it is a [PostmanCollection]; the embedding follows
    the run when it is one. The state holds values of the interfaces
    only, so the run that stores a value outside [PostmanCollection]
    ends [Untyped] and is not followed further. *)
Definition reader_onload (result : string) : Act unit :=
  try_finally
    (try_catch
       (v ← JSON_parse result;
        (if enrichable v then mret tt else throw TypeError);;
        json ← as_type PostmanCollection.of_json v;
        let enrichedItem := imap enrich (PostmanCollection.item json) in
        call (setCollection
                (Some (PostmanCollection.set_item enrichedItem json)));;
        call (setSelectedItemId (Some 0%Z)))
       (fun err => perform (Alert "Invalid Postman Collection JSON")))
    (call (setIsUploading false)).

(** The whole import of a chosen file with contents [text]: the change
    handler, then the reader's callback once the contents are read. *)
Definition import (text : string) : Act unit :=
  handleFileUpload (Some text);; reader_onload text.

(** [selectedItem] *)
Definition selectedItem (s : AppState) : option PostmanItem.t :=
  match selectedItemId s, collection s with
  | Some i, Some c =>
      if (0 <=? i)%Z then PostmanCollection.item c !! Z.to_nat i else None
  | _, _ => None
  end.

(** *** Mock send: [handleSendRequest] and its timer callback *)

(** [start] is the reading of [Date.now()] at the call. The callback
    passed to [setTimeout] closes over [item] and [start]. *)
Definition handleSendRequest (item : PostmanItem.t) (start : Z) : Act unit :=
  call (setIsSending true);;
  call (setResponse None);;
  perform (SetTimeout 800).

Definition handleSendRequest_timeout (item : PostmanItem.t) (start : Z)
  (clock : Clock) : Act unit :=
  try_catch
    (bodyParsed ←
       JSON_parse (PostmanBody.raw (PostmanRequest.body
                                      (PostmanItem.request item)));
     call (setResponse (Some
       {| MockResponse.status := 200;
          MockResponse.data :=
            JSON.Object
              [("success", JSON.Bool true);
               ("msg", JSON.Str "Operation successful");
               ("received_data", bodyParsed);
               ("server_time", JSON.Str (toISOString clock))];
          MockResponse.time := (now clock - start)%Z |})))
    (fun e =>
       call (setResponse (Some
         {| MockResponse.status := 400;
            MockResponse.data :=
              JSON.Object
                [("error", JSON.Str "Malformed JSON in request body")];
            MockResponse.time := (now clock - start)%Z |})));;
  call (setIsSending false).

(** *** Analysis: [callGeminiAPI] and [analyzeRequestWithGemini] *)

Definition PLACEHOLDER_API_KEY : string := "PLACEHOLDER_API_KEY".

Definition endpoint : string :=
  "https://generativelanguage.googleapis.com/v1beta/models/gemini-1.5-flash-latest:generateContent?key=".

(** [error instanceof Error ? error.message : "An error occurred ..."] *)
Definition error_text (env : Env) (error : thrown) : string :=
  match error with
  | ErrorObject message => message
  | SyntaxError => SyntaxError_message env
  | TypeError => TypeError_message env
  | NotAnError => "An error occurred while calling Gemini API"
  end.

(** The [catch] and [finally] clauses of [callGeminiAPI], around the
    part of its [try] block that [body] is. *)
Definition guarded (env : Env) (body : Act unit) : Act unit :=
  try_finally
    (try_catch body
       (fun error => call (setGeminiError (Some (error_text env error)))))
    (call (setIsLoadingGemini false)).

(** [!apiKey || apiKey === "PLACEHOLDER_API_KEY"]: an undefined or empty
    key is falsy. *)
Definition unconfigured (apiKey : option string) : bool :=
  match apiKey with
  | None => true
  | Some k => String.eqb k EmptyString || String.eqb k PLACEHOLDER_API_KEY
  end.

Definition request_body (prompt : string) : string :=
  JSON.stringify
    (JSON.Object
       [("contents",
         JSON.Array
           [JSON.Object
              [("parts",
                JSON.Array [JSON.Object [("text", JSON.Str prompt)]])]])])
    0.

(** The function up to its [await fetch(...)]. *)
Definition callGeminiAPI (env : Env) (prompt : string) : Act unit :=
  call (setIsLoadingGemini true);;
  call (setGeminiResponse None);;
  call (setGeminiError None);;
  guarded env
    (let apiKey := GEMINI_API_KEY env in
     (if unconfigured apiKey
      then throw (ErrorObject
                    "Please set your GEMINI_API_KEY in .env.local file")
      else mret tt);;
     await (Fetch (endpoint +:+ default EmptyString apiKey) "POST"
                  [("Content-Type", "application/json")]
                  (request_body prompt))).

(** [data.candidates[0].content.parts[0].text]; the outer [None] is the
    [TypeError] of reading through [undefined] or [null]. *)
Definition candidate_text (data : JSON.value) : option (option JSON.value) :=
  match JSON.get "candidates" (Some data) with
  | None => None
  | Some candidates =>
      match JSON.get_index 0 candidates with
      | None => None
      | Some candidate =>
          match JSON.get "content" candidate with
          | None => None
          | Some content =>
              match JSON.get "parts" content with
              | None => None
              | Some parts =>
                  match JSON.get_index 0 parts with
                  | None => None
                  | Some part => JSON.get "text" part
                  end
              end
          end
      end
  end.

(** The rest of the function, run when the request has settled and,
    for a response, its body has been read. *)
Definition callGeminiAPI_settled (env : Env) (settled : fetched) : Act unit :=
  guarded env
    (response ←
       match settled with
       | Rejected e => throw e
       | Resolved r => mret r
       end;
     (if negb (Response.ok response)
      then throw (ErrorObject
                    ("Gemini API error: "
                     +:+ JSString.of_nat (Response.status response)
                     +:+ " " +:+ Response.statusText response))
      else mret tt);;
     data ← JSON_parse (Response.text response);
     match candidate_text data with
     | None => throw TypeError
     | Some geminiText => call (setGeminiResponse geminiText)
     end).

Definition url_text (u : PostmanUrl) : string :=
  match u with
  | UrlString s => s
  | UrlObject raw => raw
  end.

Definition prompt_of (item : PostmanItem.t) : string :=
  let request := PostmanItem.request item in
  let nl := JSString.str JSString.LF in
  "Analyze this API request and provide insights:" +:+ nl +:+ nl
  +:+ "Method: " +:+ PostmanRequest.method request +:+ nl
  +:+ "URL: " +:+ url_text (PostmanRequest.url request) +:+ nl +:+ nl
  +:+ "Headers: "
  +:+ JSON.stringify
        (JSON.Array (PostmanHeader.to_json <$> PostmanRequest.header request))
        2
  +:+ nl +:+ nl
  +:+ "Body: " +:+ PostmanBody.raw (PostmanRequest.body request)
  +:+ nl +:+ nl
  +:+ "Please provide:" +:+ nl +:+ "1. What this request does" +:+ nl
  +:+ "2. Potential improvements" +:+ nl +:+ "3. Security considerations".

Definition analyzeRequestWithGemini (env : Env) (item : PostmanItem.t)
  : Act unit :=
  callGeminiAPI env (prompt_of item).

(** *** Sidebar: [filteredItems] and the rows of the list *)

Definition filteredItems (s : AppState) : list PostmanItem.t :=
  match collection s with
  | Some c =>
      List.filter
        (fun item =>
           JSString.includes
             (JSString.toLowerCase (PostmanItem.name item))
             (JSString.toLowerCase (searchQuery s)))
        (PostmanCollection.item c)
  | None => []
  end.

(** [Array.prototype.findIndex]: the first position whose element
    satisfies the predicate, or -1. *)
Definition findIndex {A : Type} (P : A -> Prop) `{!forall x, Decision (P x)}
  (l : list A) : Z :=
  match list_find P l with
  | Some (i, _) => Z.of_nat i
  | None => (-1)%Z
  end.

(** [originalIndex], as computed for a row showing [item]. *)
Definition originalIndex (c : PostmanCollection.t) (item : PostmanItem.t)
  : Z :=
  findIndex (fun i => PostmanItem.name i = PostmanItem.name item)
            (PostmanCollection.item c).

(** The rows of the list, each with the index its click selects; there
    is no list while no collection is loaded. *)
Definition rows (s : AppState) : list (PostmanItem.t * Z) :=
  match collection s with
  | Some c => (fun item => (item, originalIndex c item)) <$> filteredItems s
  | None => []
  end.

Definition row_onClick (originalIndex : Z) : Act unit :=
  call (setSelectedItemId (Some originalIndex)).

Definition search_onChange (value : string) : Act unit :=
  call (setSearchQuery value).

(** ** RequestEditor.tsx *)

Module RequestEditor.

(** ['params' | 'auth' | 'headers' | 'body'] *)
Inductive Tab : Type := params | auth | headers | body.

#[global] Instance Tab_eq_dec : EqDecision Tab.
Proof. solve_decision. Defined.

Record State : Type := mk {
  activeTab : Tab;
  copied : bool;
  url : string
}.

(** The initial values of the [useState] calls. *)
Definition initial : State :=
  {| activeTab := body; copied := false; url := EmptyString |}.

Definition setActiveTab (t : Tab) (st : State) : State :=
  {| activeTab := t; copied := copied st; url := url st |}.

Definition setCopied (b : bool) (st : State) : State :=
  {| activeTab := activeTab st; copied := b; url := url st |}.

Definition setUrl (u : string) (st : State) : State :=
  {| activeTab := activeTab st; copied := copied st; url := u |}.

(** The effect, whose only dependency is [item]. *)
Definition effect (item : PostmanItem.t) (st : State) : State :=
  let rawUrl := url_text (PostmanRequest.url (PostmanItem.request item)) in
  setUrl rawUrl st.

Definition handleCopy (item : PostmanItem.t) (st : State)
  : State * list Effect :=
  (setCopied true st,
   [ClipboardWrite
      (PostmanBody.raw (PostmanRequest.body (PostmanItem.request item)));
    SetTimeout 2000]).

(** The callback of the timer set by [handleCopy]. *)
Definition handleCopy_timeout (st : State) : State := setCopied false st.

(** [None] from [JSON.parse] is its [SyntaxError], caught here. *)
Definition prettifyJson (raw : string) : string :=
  match JSON.parse raw with
  | Some v => JSON.stringify v 4
  | None => raw
  end.

(** The label of a tab button; its click sets the lower-cased label. *)
Definition label (t : Tab) : string :=
  match t with
  | params => "Params"
  | auth => "Auth"
  | headers => "Headers"
  | body => "Body"
  end.

Definition tab_onClick (t : Tab) (st : State) : State := setActiveTab t st.

Definition url_onChange (value : string) (st : State) : State :=
  setUrl value st.

(** What the content area shows. *)
Inductive Content : Type :=
| BodyText (text : string)
| HeaderTable (lines : list (string * string * string))
| NotApplicable.

Definition description (h : PostmanHeader.t) : string :=
  match PostmanHeader.name h with
  | Some n => if String.eqb n EmptyString then "-" else n
  | None => "-"
  end.

Definition content (item : PostmanItem.t) (st : State) : Content :=
  let request := PostmanItem.request item in
  match activeTab st with
  | body => BodyText (prettifyJson (PostmanBody.raw (PostmanRequest.body request)))
  | headers =>
      HeaderTable
        ((fun h => (PostmanHeader.key h, PostmanHeader.value h, description h))
           <$> PostmanRequest.header request)
  | params | auth => NotApplicable
  end.

(** The first render of an instance: initial state, then the effect. *)
Definition mount (item : PostmanItem.t) : State := effect item initial.

(** A later render of the same instance: its state is kept, and the
    effect runs when the [item] it is given is another object. *)
Definition update (changed : bool) (item : PostmanItem.t) (st : State)
  : State :=
  if changed then effect item st else st.

End RequestEditor.

(** ** The running application

    [App] renders one [RequestEditor], without a key, while
    [selectedItem] is set, so one instance lives from the moment an item
    is first selected until none is. The state of the page is the state
    of [App], that of the editor instance if there is one, and what is
    pending on the platform: file reads (by their text), send timers
    (with the [item] and [start] of their callback), analysis requests,
    and copy timers. *)

Record Page : Type := mkPage {
  app : AppState;
  editor : option RequestEditor.State;
  reads : list string;
  timers : list (PostmanItem.t * Z);
  fetches : nat;
  copy_timers : nat;
  (** every effect issued so far, newest last *)
  history : list Effect
}.

Definition start_page : Page :=
  {| app := initial; editor := None; reads := []; timers := [];
     fetches := 0; copy_timers := 0; history := [] |}.

Inductive Event : Type :=
| ChooseFile (file : option string)
| FileRead (k : nat)
| TypeSearch (value : string)
| ClickRow (k : nat)
| ClickSend (now : Z)
| SendTimerFired (k : nat) (clock : Clock)
| ClickAnalyze
| FetchSettled (settled : fetched)
| ClickTab (t : RequestEditor.Tab)
| TypeUrl (value : string)
| ClickCopy
| CopyTimerFired.

(** The editor after [App] has rendered again. [changed] tells whether
    [selectedItem] is another object than at the previous render. *)
Definition render (changed : bool) (s : AppState)
  (ed : option RequestEditor.State) : option RequestEditor.State :=
  match selectedItem s with
  | None => None
  | Some item =>
      match ed with
      | None => Some (RequestEditor.mount item)
      | Some st => Some (RequestEditor.update changed item st)
      end
  end.

(** A handler of [App] run on the page; [None] for a run that leaves
    the interfaces. *)
Definition run (a : Act unit) (p : Page) : option (AppState * list Effect) :=
  match a (app p) with
  | (Untyped, _, _) => None
  | (_, s, es) => Some (s, es)
  end.

Definition count_fetches (es : list Effect) : nat :=
  length (List.filter (fun e => match e with Fetch _ _ _ _ => true | _ => false end) es).

Definition texts_read (es : list Effect) : list string :=
  omap (fun e => match e with ReadAsText f => Some f | _ => None end) es.

(** The page once a handler of [App] has ended in state [s] having
    issued [es], and [App] has rendered again. File reads and analysis
    requests issued become pending; a copy timer belongs to the editor
    instance that set it and goes with it. *)
Definition rendered (changed : bool) (s : AppState) (es : list Effect)
  (p : Page) : Page :=
  let ed := render changed s (editor p) in
  {| app := s; editor := ed;
     reads := reads p ++ texts_read es; timers := timers p;
     fetches := fetches p + count_fetches es;
     copy_timers := match ed with Some _ => copy_timers p | None => 0 end;
     history := history p ++ es |}.

Definition with_timers (ts : list (PostmanItem.t * Z)) (p : Page) : Page :=
  {| app := app p; editor := editor p; reads := reads p; timers := ts;
     fetches := fetches p; copy_timers := copy_timers p;
     history := history p |}.

Definition with_reads (rs : list string) (p : Page) : Page :=
  {| app := app p; editor := editor p; reads := rs; timers := timers p;
     fetches := fetches p; copy_timers := copy_timers p;
     history := history p |}.

Definition with_fetches (n : nat) (p : Page) : Page :=
  {| app := app p; editor := editor p; reads := reads p; timers := timers p;
     fetches := n; copy_timers := copy_timers p; history := history p |}.

(** The page after a handler of the editor instance. *)
Definition edited (st : RequestEditor.State) (timers_set : nat)
  (es : list Effect) (p : Page) : Page :=
  {| app := app p; editor := Some st; reads := reads p; timers := timers p;
     fetches := fetches p; copy_timers := timers_set;
     history := history p ++ es |}.

(** The page after an event, or [None] when the event cannot happen on
    this page (no such row, a disabled button, nothing pending). *)
Definition step (env : Env) (ev : Event) (p : Page) : option Page :=
  match ev with
  | ChooseFile file =>
      '(s, es) ← run (handleFileUpload file) p;
      Some (rendered false s es p)
  | FileRead k =>
      result ← reads p !! k;
      '(s, es) ← run (reader_onload result) p;
      let replaced :=
        match JSON.parse result with
        | Some v => enrichable v
        | None => false
        end in
      Some (rendered replaced s es (with_reads (delete k (reads p)) p))
  | TypeSearch value =>
      '(s, es) ← run (search_onChange value) p;
      Some (rendered false s es p)
  | ClickRow k =>
      '(_, index) ← rows (app p) !! k;
      '(s, es) ← run (row_onClick index) p;
      let moved := negb (bool_decide (selectedItemId (app p) = Some index)) in
      Some (rendered moved s es p)
  | ClickSend now =>
      item ← selectedItem (app p);
      guard (isSending (app p) = false);;
      '(s, es) ← run (handleSendRequest item now) p;
      Some (rendered false s es (with_timers (timers p ++ [(item, now)]) p))
  | SendTimerFired k clock =>
      '(item, start) ← timers p !! k;
      '(s, es) ← run (handleSendRequest_timeout item start clock) p;
      Some (rendered false s es (with_timers (delete k (timers p)) p))
  | ClickAnalyze =>
      item ← selectedItem (app p);
      guard (isLoadingGemini (app p) = false);;
      '(s, es) ← run (analyzeRequestWithGemini env item) p;
      Some (rendered false s es p)
  | FetchSettled settled =>
      guard (0 < fetches p);;
      '(s, es) ← run (callGeminiAPI_settled env settled) p;
      Some (rendered false s es (with_fetches (fetches p - 1) p))
  | ClickTab t =>
      st ← editor p;
      Some (edited (RequestEditor.tab_onClick t st) (copy_timers p) [] p)
  | TypeUrl value =>
      st ← editor p;
      Some (edited (RequestEditor.url_onChange value st) (copy_timers p) [] p)
  | ClickCopy =>
      st ← editor p;
      item ← selectedItem (app p);
      let '(st', es) := RequestEditor.handleCopy item st in
      Some (edited st' (copy_timers p + 1) es p)
  | CopyTimerFired =>
      st ← editor p;
      guard (0 < copy_timers p);;
      Some (edited (RequestEditor.handleCopy_timeout st) (copy_timers p - 1)
                   [] p)
  end.

(** The pages the application can be in: those a sequence of events
    leads to from the start. *)
Inductive reachable (env : Env) : Page -> Prop :=
| reachable_start : reachable env start_page
| reachable_step p ev p' :
    reachable env p -> step env ev p = Some p' -> reachable env p'.

(** Events in sequence. *)
Fixpoint steps (env : Env) (evs : list Event) (p : Page) : option Page :=
  match evs with
  | [] => Some p
  | ev :: rest => step env ev p ≫= steps env rest
  end.

(** ** The specification's notions

    Definitions that follow the words of the specification, to compare
    the program with. *)





(** The positions, in the unfiltered collection, of the requests the
    filtered view shows, in the order it shows them. *)
Definition shown_positions (s : AppState) : list nat :=
  match collection s with
  | Some c =>
      fst <$>
        List.filter
          (fun p =>
             JSString.includes
               (JSString.toLowerCase (PostmanItem.name (snd p)))
               (JSString.toLowerCase (searchQuery s)))
          (imap pair (PostmanCollection.item c))
  | None => []
  end.

(** The success payload as the specification names its members. *)
Definition payload_in_spec (parsed : JSON.value) (timestamp : string)
  : JSON.value :=
  JSON.Object
    [("success", JSON.Bool true);
     ("msg", JSON.Str "Operation successful");
     ("receivedData", parsed);
     ("serverTime", JSON.Str timestamp)].

(** Whether an analysis result, or error, is present. *)
Definition both_present (s : AppState) : Prop :=
  is_Some (geminiResponse s) /\ is_Some (geminiError s).

(** When an analysis succeeds, and with which text: the request is
    answered, the status of the answer is OK, its body is JSON, and the
    first part of the content of the first candidate can be read there;
    the text is the [text] member of that part. Every other settlement
    is a failure. *)
Definition analysis_text (settled : fetched) : option (option JSON.value) :=
  match settled with
  | Rejected _ => None
  | Resolved r =>
      if Response.ok r then
        match JSON.parse (Response.text r) with
        | Some data => candidate_text data
        | None => None
        end
      else None
  end.

(** Text in ASCII, on which the case mapping of the embedding is that of
    the platform; a state whose requests all have such names. *)
Definition is_ascii (s : string) : bool :=
  forallb (fun c => nat_of_ascii c <? 128) (list_ascii_of_string s).

Definition ascii_names (s : AppState) : bool :=
  match collection s with
  | Some c =>
      forallb (fun item => is_ascii (PostmanItem.name item))
              (PostmanCollection.item c)
  | None => true
  end.

Section IndentedText.
Import JSString JSON.


(** The indented text of a value.

    A value is laid out on lines, each at a depth. A value without
    parts, an empty array and an empty object take one line. An array
    with elements takes a line for its opening bracket, the lines of
    its elements one level deeper, a comma closing each element but the
    last, and a line for its closing bracket; an object likewise, each
    member starting with its quoted key, a colon and a space. The text
    is the lines, each after [width] spaces for every level of its
    depth, separated by line feeds. *)
Definition Line : Type := nat * string.

(** A comma after the last line of an element. *)
Fixpoint with_comma (ls : list Line) : list Line :=
  match ls with
  | [] => []
  | [(d, t)] => [(d, t +:+ ",")]
  | l :: rest => l :: with_comma rest
  end.

(** The lines of the elements, a comma closing each but the last. *)
Fixpoint commas (blocks : list (list Line)) : list Line :=
  match blocks with
  | [] => []
  | [b] => b
  | b :: rest => with_comma b ++ commas rest
  end.

(** The lines of a member: its key before the first line of its value. *)
Definition keyed (k : string) (ls : list Line) : list Line :=
  match ls with
  | (d, t) :: rest => (d, quote k +:+ ": " +:+ t) :: rest
  | [] => []
  end.

Fixpoint lines (depth : nat) (v : value) : list Line :=
  match v with
  | Null => [(depth, "null")]
  | Bool true => [(depth, "true")]
  | Bool false => [(depth, "false")]
  | Number n => [(depth, Number_toString n)]
  | Str s => [(depth, quote s)]
  | Array xs =>
      match xs with
      | [] => [(depth, "[]")]
      | _ =>
          (depth, "[") :: commas (List.map (lines (S depth)) xs)
            ++ [(depth, "]")]
      end
  | Object ms =>
      match ms with
      | [] => [(depth, "{}")]
      | _ =>
          (depth, "{")
            :: commas
                 (List.map
                    (fun kv => keyed (fst kv) (lines (S depth) (snd kv))) ms)
            ++ [(depth, "}")]
      end
  end.




End IndentedText.

(** ** Auxiliary notions of the proofs *)

Definition gemini_view (s : AppState)
  : option JSON.value * bool * option string :=
  (geminiResponse s, isLoadingGemini s, geminiError s).

Definition state_of {A : Type} (r : outcome A * AppState * list Effect)
  : AppState := snd (fst r).

Definition effects_of {A : Type} (r : outcome A * AppState * list Effect)
  : list Effect := snd r.

(** What holds of the analysis on every page: a request is pending
    exactly while the busy flag is up; while it is up no result is
    shown; a text and an error are never both shown. *)
Definition analysis_inv (p : Page) : Prop :=
  fetches p = (if isLoadingGemini (app p) then 1 else 0)
  /\ (isLoadingGemini (app p) = true ->
      geminiResponse (app p) = None /\ geminiError (app p) = None)
  /\ ~ both_present (app p).

(** While no file is being read, the upload flag is down. *)
Definition upload_inv (p : Page) : Prop :=
  reads p = [] -> isUploading (app p) = false.

Definition upload_frame (r : outcome unit * AppState * list Effect)
  (s : AppState) : Prop :=
  isUploading (state_of r) = isUploading s /\ texts_read (effects_of r) = [].

(** *** JSON texts

    Notions of the proof that the text [JSON.stringify] gives is read
    back by [JSON.parse] as the value it was given. *)

Section JsonNotions.
Import JSString JSON.





(** Induction on a value, with the property at hand for every element
    of an array and every member of an object. *)
Section value_induction.
Variable P : value -> Prop.
Hypothesis HNull : P Null.
Hypothesis HBool : forall b, P (Bool b).
Hypothesis HNumber : forall n, P (Number n).
Hypothesis HStr : forall s, P (Str s).
Hypothesis HArray : forall xs, Forall P xs -> P (Array xs).
Hypothesis HObject :
  forall ms, Forall (fun kv => P (snd kv)) ms -> P (Object ms).

End value_induction.






(** What may follow a word: the end of the text, or a character that
    is not part of a word. *)
Definition delimited (rest : string) : Prop :=
  match rest with
  | EmptyString => True
  | String c _ => is_word_char c = false
  end.







End JsonNotions.

(** ** Sample data *)

(** [s] with each apostrophe replaced by a double quote, to write JSON
    texts. *)
Definition json_text (s : string) : string :=
  string_of_list_ascii
    ((fun c => if Ascii.eqb c "'"%char then JSString.dquote else c)
       <$> list_ascii_of_string s).







(** A request named [name] with body [raw]. *)
Definition sample_item (name url raw : string) : PostmanItem.t :=
  {| PostmanItem.name := name;
     PostmanItem.request :=
       {| PostmanRequest.method := "POST";
          PostmanRequest.header :=
            [{| PostmanHeader.key := "Content-Type";
                PostmanHeader.value := "application/json";
                PostmanHeader.name := None;
                PostmanHeader.type := Some "text";
                PostmanHeader.members :=
                  [("key", JSON.Str "Content-Type");
                   ("value", JSON.Str "application/json");
                   ("type", JSON.Str "text")] |}];
          PostmanRequest.body :=
            {| PostmanBody.mode := "raw"; PostmanBody.raw := raw |};
          PostmanRequest.url := UrlObject url |};
     PostmanItem.response := [];
     PostmanItem._id := None |}.

(** A collection file with two requests of different names, the value
    it parses to, and the collection that value is. *)
Definition sample_file : string :=
  json_text
    "{'info':{'_postman_id':'c1','name':'Devices','schema':'v2.1'},
      'item':[
       {'name':'Get status',
        'request':{'method':'POST',
                   'header':[{'key':'Content-Type','value':'application/json','type':'text'}],
                   'body':{'mode':'raw','raw':'{\'x\':1}'},
                   'url':{'raw':'http://device/status'}},
        'response':[]},
       {'name':'Reboot',
        'request':{'method':'POST',
                   'header':[{'key':'Content-Type','value':'application/json','type':'text'}],
                   'body':{'mode':'raw','raw':'not json'},
                   'url':{'raw':'http://device/reboot'}},
        'response':[]}]}".

Definition sample_value : JSON.value :=
  default JSON.Null (JSON.parse sample_file).

Definition sample_collection : PostmanCollection.t :=
  {| PostmanCollection.info :=
       {| PostmanInfo._postman_id := "c1"; PostmanInfo.name := "Devices";
          PostmanInfo.schema := "v2.1" |};
     PostmanCollection.item :=
       [sample_item "Get status" "http://device/status" (json_text "{'x':1}");
        sample_item "Reboot" "http://device/reboot" "not json"] |}.

(** A collection file with two requests of the same name. *)
Definition twin_file : string :=
  json_text
    "{'info':{'_postman_id':'c2','name':'Twins','schema':'v2.1'},
      'item':[
       {'name':'Get status',
        'request':{'method':'POST','header':[],
                   'body':{'mode':'raw','raw':'{}'},
                   'url':'http://first/status'},
        'response':[]},
       {'name':'Get status',
        'request':{'method':'POST','header':[],
                   'body':{'mode':'raw','raw':'{}'},
                   'url':'http://second/status'},
        'response':[]}]}".

Definition sample_env : Env :=
  {| GEMINI_API_KEY := Some PLACEHOLDER_API_KEY;
     SyntaxError_message := "Unexpected token";
     TypeError_message := "Cannot read properties of undefined" |}.

Definition sample_clock : Clock :=
  {| toISOString := "2025-01-01T00:00:00.801Z"; now := 1735689600801 |}.

(** The page with the sample file loaded and the Headers tab open; the
    page after a click on its second row; the editor on that page. *)
Definition sample_page : Page :=
  default start_page
    (steps sample_env
       [ChooseFile (Some sample_file); FileRead 0;
        ClickTab RequestEditor.headers] start_page).

Definition sample_page_next : Page :=
  default start_page (step sample_env (ClickRow 1) sample_page).

Definition sample_editor : RequestEditor.State :=
  default RequestEditor.initial (editor sample_page_next).

(** ** Further notions

    Notions used to state what the handlers keep and what they never
    do. *)

(** The response the timer callback of a send sets for [item]. *)
Definition mock_response (item : PostmanItem.t) (start : Z) (clock : Clock)
  : MockResponse.t :=
  match JSON.parse (PostmanBody.raw (PostmanRequest.body
                                       (PostmanItem.request item))) with
  | Some bodyParsed =>
      {| MockResponse.status := 200;
         MockResponse.data :=
           JSON.Object
             [("success", JSON.Bool true);
              ("msg", JSON.Str "Operation successful");
              ("received_data", bodyParsed);
              ("server_time", JSON.Str (toISOString clock))];
         MockResponse.time := (now clock - start)%Z |}
  | None =>
      {| MockResponse.status := 400;
         MockResponse.data :=
           JSON.Object
             [("error", JSON.Str "Malformed JSON in request body")];
         MockResponse.time := (now clock - start)%Z |}
  end.

(** A text of JSON whitespace only (the empty text included). *)
Definition blank (s : string) : Prop :=
  Forall (fun c => JSON.is_whitespace c = true) (list_ascii_of_string s).

(** A credential that lets the analysis call the service. *)
Definition configured (env : Env) : Prop :=
  exists k, GEMINI_API_KEY env = Some k
            /\ k <> EmptyString /\ k <> PLACEHOLDER_API_KEY.

(** What holds of the mock send on every page: a timer is pending
    exactly while the busy flag is up, and no response is shown while it
    is up. *)
Definition send_inv (p : Page) : Prop :=
  length (timers p) = (if isSending (app p) then 1 else 0)
  /\ (isSending (app p) = true -> response (app p) = None).

(** A response made by the mock send: status 200 with the four members
    of the success payload, or status 400 with the error member. *)
Definition mock_shaped (r : MockResponse.t) : Prop :=
  (MockResponse.status r = 200
   /\ exists parsed timestamp,
        MockResponse.data r
        = JSON.Object
            [("success", JSON.Bool true);
             ("msg", JSON.Str "Operation successful");
             ("received_data", parsed);
             ("server_time", JSON.Str timestamp)])
  \/ (MockResponse.status r = 400
      /\ MockResponse.data r
         = JSON.Object
             [("error", JSON.Str "Malformed JSON in request body")]).

(** What holds of the selection on every page: without a collection
    nothing is selected and no editor is shown; with one, an index is
    selected that lies within the collection (or is 0 when the
    collection is empty), and the editor is shown exactly when the
    selected position holds a request. *)
Definition selection_inv (p : Page) : Prop :=
  match collection (app p) with
  | None => selectedItemId (app p) = None /\ editor p = None
  | Some c =>
      exists i,
        selectedItemId (app p) = Some (Z.of_nat i)
        /\ (i < length (PostmanCollection.item c)
            \/ (i = 0 /\ PostmanCollection.item c = []))
        /\ (is_Some (editor p) <-> PostmanCollection.item c <> [])
  end.

(** What holds of the copy indicator on every page: while it is shown,
    a timer that will hide it is pending. *)
Definition copy_inv (p : Page) : Prop :=
  forall st, editor p = Some st ->
             RequestEditor.copied st = true -> 0 < copy_timers p.

(** The effects of kind alert or network request among [es]. *)
Definition alerts (es : list Effect) : list string :=
  omap (fun e => match e with Alert m => Some m | _ => None end) es.

(** The page with the twin file loaded. *)
Definition twin_page : Page :=
  default start_page
    (steps sample_env [ChooseFile (Some twin_file); FileRead 0] start_page).

(** Its collection, and the second of its two requests. *)
Definition twin_collection : PostmanCollection.t :=
  default sample_collection (collection (app twin_page)).

Definition twin_second : PostmanItem.t :=
  default (sample_item "Get status" "http://second/status" "{}")
          (PostmanCollection.item twin_collection !! 1).

(** The page with the sample file loaded and its first request sent,
    and the response shown on it. *)
Definition sent_page : Page :=
  default start_page
    (steps sample_env
       [ChooseFile (Some sample_file); FileRead 0;
        ClickSend 1735689600000; SendTimerFired 0 sample_clock] start_page).

Definition sent_response : MockResponse.t :=
  default (mock_response (sample_item "Reboot" "http://device/reboot"
                                      "not json") 0 sample_clock)
          (response (app sent_page)).

(** An answer of the service in the expected shape. *)
Definition sample_answer : Response.t :=
  {| Response.ok := true; Response.status := 200; Response.statusText := "OK";
     Response.text :=
       json_text
         "{'candidates':[{'content':{'parts':[{'text':'Looks fine'}],'role':'model'},'index':0}]}" |}.

(** An environment with a credential. *)
Definition keyed_env : Env :=
  {| GEMINI_API_KEY := Some "k-123";
     SyntaxError_message := "Unexpected token";
     TypeError_message := "Cannot read properties of undefined" |}.

(** The collection of the sample page, and the second of its requests. *)
Definition sample_loaded : PostmanCollection.t :=
  default sample_collection (collection (app sample_page)).

Definition sample_second : PostmanItem.t :=
  default (sample_item "Reboot" "http://device/reboot" "not json")
          (PostmanCollection.item sample_loaded !! 1).

(** The events whose handlers call the setters of the collection, of
    the selection, of the search text, of the send and of the analysis. *)
Definition writes_collection (ev : Event) : bool :=
  match ev with FileRead _ => true | _ => false end.

Definition writes_selection (ev : Event) : bool :=
  match ev with FileRead _ | ClickRow _ => true | _ => false end.

Definition writes_search (ev : Event) : bool :=
  match ev with TypeSearch _ => true | _ => false end.

Definition writes_send (ev : Event) : bool :=
  match ev with ClickSend _ | SendTimerFired _ _ => true | _ => false end.

Definition writes_analysis (ev : Event) : bool :=
  match ev with ClickAnalyze | FetchSettled _ => true | _ => false end.

(** What the application may ask of the platform: the one alert of the
    import; timers of 800 and 2000 milliseconds; a POST to the analysis
    endpoint with the configured credential. *)
Definition expected (env : Env) (e : Effect) : Prop :=
  match e with
  | Alert message => message = "Invalid Postman Collection JSON"
  | ReadAsText _ | ClipboardWrite _ => True
  | SetTimeout delay => delay = 800 \/ delay = 2000
  | Fetch url method headers body =>
      configured env
      /\ url = endpoint +:+ default EmptyString (GEMINI_API_KEY env)
      /\ method = "POST"
      /\ headers = [("Content-Type", "application/json")]
      /\ exists prompt, body = request_body prompt
  end.

(** The sample page after an edit of the URL field, a send and a
    search. *)
Definition busy_events : list Event :=
  [ClickTab RequestEditor.body; TypeUrl "http://edited/";
   ClickSend 1735689600000; SendTimerFired 0 sample_clock; TypeSearch "re"].

Definition busy_page : Page :=
  default start_page (steps sample_env busy_events sample_page).

(** The sample page after a click on the copy button of its Body tab. *)
Definition copied_page : Page :=
  default start_page
    (steps sample_env [ClickTab RequestEditor.body; ClickCopy] sample_page).

(** That page after a click on the one row its list shows. *)
Definition busy_page_next : Page :=
  default start_page (step sample_env (ClickRow 0) busy_page).

(** The page with two files chosen and neither read yet; the second
    is JSON and no collection. *)
Definition two_reads_page : Page :=
  default start_page
    (steps sample_env
       [ChooseFile (Some sample_file); ChooseFile (Some "{}")]
       start_page).

(** The page with the sample file loaded and a second file chosen and
    still being read. *)
Definition pending_page : Page :=
  default start_page
    (steps sample_env
       [ChooseFile (Some sample_file); FileRead 0;
        ChooseFile (Some twin_file)] start_page).

(** With a credential: the page with the sample file loaded and the
    analysis of its first request in flight, and the page once the
    service has answered. *)
Definition analysing_page : Page :=
  default start_page
    (steps keyed_env
       [ChooseFile (Some sample_file); FileRead 0; ClickAnalyze] start_page).

Definition analysed_page : Page :=
  default start_page
    (step keyed_env (FetchSettled (Resolved sample_answer)) analysing_page).

(** The page with the sample file loaded and the send of its first
    request in flight. *)
Definition sending_page : Page :=
  default start_page
    (steps sample_env
       [ChooseFile (Some sample_file); FileRead 0; ClickSend 1735689600000]
       start_page).

(** No character of [s] is a hyphen. *)
Fixpoint hyphen_free (s : string) : Prop :=
  match s with
  | EmptyString => True
  | String c s' => c <> "-"%char /\ hyphen_free s'
  end.

(** * Properties *)

(** ** Strings *)

Section StringFacts.
Import JSString.

Lemma append_empty (b : string) : EmptyString +:+ b = b.
Proof. reflexivity. Qed.

Lemma append_String (c : ascii) (a b : string) :
  String c a +:+ b = String c (a +:+ b).
Proof. reflexivity. Qed.

Lemma prefix_empty (s : string) : String.prefix EmptyString s = true.
Proof. by destruct s. Qed.

Lemma prefix_String (c d : ascii) (t s : string) :
  String.prefix (String c t) (String d s)
  = if Ascii.ascii_dec c d then String.prefix t s else false.
Proof. reflexivity. Qed.

Lemma prefix_spec (t s : string) :
  String.prefix t s = true <-> exists b, s = t +:+ b.
Proof.
  revert s. induction t as [|c t IH]; intros s.
  - rewrite prefix_empty. split; [intros _; by exists s | done].
  - destruct s as [|d s].
    + split; [done | intros [b Hb]; discriminate].
    + rewrite prefix_String. destruct (Ascii.ascii_dec c d) as [->|Hne].
      * rewrite IH. split; intros [b Hb]; exists b.
        -- by rewrite append_String, Hb.
        -- rewrite append_String in Hb. by injection Hb.
      * split; [done | intros [b Hb]].
        rewrite append_String in Hb. injection Hb. congruence.
Qed.

Lemma includes_EmptyString (t : string) :
  includes EmptyString t = String.prefix t EmptyString.
Proof. unfold includes. apply orb_false_r. Qed.

Lemma includes_String (c : ascii) (s t : string) :
  includes (String c s) t = String.prefix t (String c s) || includes s t.
Proof. reflexivity. Qed.

(** [includes] decides occurrence as a substring. *)
Lemma includes_spec (s t : string) :
  includes s t = true <-> exists a b, s = a +:+ t +:+ b.
Proof.
  induction s as [|c s IH].
  - rewrite includes_EmptyString, prefix_spec. split.
    + intros [b Hb]. by exists EmptyString, b.
    + intros [a [b Hab]]. destruct a; [by exists b | discriminate].
  - rewrite includes_String, orb_true_iff, prefix_spec, IH. split.
    + intros [[b Hb]|[a [b Hab]]].
      * by exists EmptyString, b.
      * exists (String c a), b. by rewrite append_String, Hab.
    + intros [a [b Hab]]. destruct a as [|c' a].
      * left. by exists b.
      * right. rewrite append_String in Hab. injection Hab as -> Hs.
        by exists a, b.
Qed.


Lemma append_assoc (a b c : string) : (a +:+ b) +:+ c = a +:+ b +:+ c.
Proof.
  induction a as [|x a IH]; [by rewrite !append_empty|].
  by rewrite !append_String, IH.
Qed.

Lemma toLowerCase_append (a b : string) :
  toLowerCase (a +:+ b) = toLowerCase a +:+ toLowerCase b.
Proof.
  induction a as [|x a IH]; [by rewrite !append_empty|].
  rewrite append_String. cbn [toLowerCase].
  by rewrite append_String, IH.
Qed.





End StringFacts.

(** ** Lists *)

Section Selects.
Context {A : Type} (P : A -> Prop) (f : A -> bool).
Hypothesis f_decides : forall x, f x = true <-> P x.





End Selects.


(** ** The sidebar filter *)




(** The filter on the query get keeps the names that contain it in any
    case, in order. *)
Example filteredItems_get :
  PostmanItem.name <$>
    filteredItems
      (setSearchQuery "get"
         (setCollection
            (Some {| PostmanCollection.info :=
                       {| PostmanInfo._postman_id := "c";
                          PostmanInfo.name := "n";
                          PostmanInfo.schema := "s" |};
                     PostmanCollection.item :=
                       [sample_item "Get users" "u" "{}";
                        sample_item "Create user" "u" "{}";
                        sample_item "forGET" "u" "{}";
                        sample_item "widGet" "u" "{}"] |})
            initial))
  = ["Get users"; "forGET"; "widGet"].
Proof. reflexivity. Qed.

(** ** JSON texts read back

    The text [JSON.stringify] gives for a value [JSON.parse] gave is
    read back as that value, and is laid out as the indented text of
    the value. *)

Section JsonTexts.
Import JSString JSON.


















(** *** The decimal of an exponent *)








(** *** The text of a number, read back *)

Section Formats.
Context (neg : bool) (d : ascii) (ds : list ascii).
Hypothesis Hdigits : Forall (fun c => is_digit c = true) (d :: ds).
Hypothesis Hfirst : is_zero_digit d = false.
Hypothesis Hlast : forall l, last (d :: ds) = Some l -> is_zero_digit l = false.





End Formats.

















Lemma delimited_String (c : ascii) (rest : string) :
  is_word_char c = false -> delimited (String c rest).
Proof. done. Qed.

(** Texts joined by a comma and white space. *)
Section Joined.
Context {A : Type} (text : A -> string) (toks_of : A -> list token).
Context (ws : string) (Hws : blank ws).


End Joined.







Section Lexing.
Context (gap : string).
Hypothesis Hgap : blank gap.
Hypothesis Hsome : String.eqb gap EmptyString = false.




End Lexing.

(** *** Members in the order of the engine are defined in place *)





(** *** The parser on the tokens of a value *)

Section Elements.
Context (stack : list frame) (rest : list token).



End Elements.


(** *** Array indices name their keys *)





(** *** Defining a member keeps the order of the engine *)








(** *** What [JSON.parse] gives is canonical *)
























(** *** The indented text of a value *)





Section Layout.
Context (width : nat).










Hypothesis Hwidth : String.eqb (JSString.repeat " " width) EmptyString = false.





End Layout.

End JsonTexts.

(** ** The pretty-printer of the Body tab *)



(** ** Handlers as state transformers *)

Ltac run_act :=
  unfold import, reader_onload, handleFileUpload, handleSendRequest,
    handleSendRequest_timeout, analyzeRequestWithGemini, callGeminiAPI,
    callGeminiAPI_settled, row_onClick, search_onChange, guarded,
    try_finally, try_catch, JSON_parse, as_type, call, perform, throw,
    await, untyped, mbind, mret, Act_bind, Act_ret.

Lemma setIsUploading_idle (s : AppState) :
  isUploading s = false -> setIsUploading false s = s.
Proof. destruct s; simpl; by intros ->. Qed.

(** On a value that is a collection the mapping runs to its end. *)
Lemma of_json_enrichable (v : JSON.value) (json : PostmanCollection.t) :
  PostmanCollection.of_json v = Some json -> enrichable v = true.
Proof.
  unfold PostmanCollection.of_json, enrichable.
  destruct v as [| | | |elements|m]; try done. cbn.
  intros H. apply bind_Some in H as (info & _ & H).
  apply bind_Some in H as (vs & Hvs & H).
  apply bind_Some in H as (its & Hits & _).
  apply bind_Some in Hvs as (x & -> & Hx).
  destruct x as [| | | |elements|]; try done. injection Hx as ->.
  apply mapM_Some_1 in Hits.
  induction Hits as [|x y xs ys Hx _ IH]; [done|].
  cbn. rewrite IH. by destruct x.
Qed.

Lemma reader_onload_parsed (text : string) (v : JSON.value)
  (json : PostmanCollection.t) (s : AppState) :
  JSON.parse text = Some v ->
  PostmanCollection.of_json v = Some json ->
  reader_onload text s
  = (Normal tt,
     setIsUploading false
       (setSelectedItemId (Some 0%Z)
          (setCollection
             (Some (PostmanCollection.set_item
                      (imap enrich (PostmanCollection.item json)) json))
             s)),
     []).
Proof.
  intros Hv Hjson. run_act.
  by rewrite Hv, (of_json_enrichable v json Hjson), Hjson.
Qed.

Lemma reader_onload_malformed (text : string) (s : AppState) :
  JSON.parse text = None ->
  reader_onload text s
  = (Normal tt, setIsUploading false s,
     [Alert "Invalid Postman Collection JSON"]).
Proof. intros Hv. run_act. by rewrite Hv. Qed.

(** A text that is JSON, on which [json.item.map] raises. *)
Lemma reader_onload_raises (text : string) (v : JSON.value) (s : AppState) :
  JSON.parse text = Some v ->
  enrichable v = false ->
  reader_onload text s
  = (Normal tt, setIsUploading false s,
     [Alert "Invalid Postman Collection JSON"]).
Proof. intros Hv He. run_act. by rewrite Hv, He. Qed.

Lemma import_unfold (text : string) (s : AppState) :
  import text s
  = let '(r, s', es) := reader_onload text (setIsUploading true s) in
    (r, s', ReadAsText text :: es).
Proof. reflexivity. Qed.

(** ** Import *)

(** C5. When the text parses to a value that is a collection with N
    items, the import ends normally with a collection of N items whose
    i-th item is the i-th item read, in the same position, with its
    [_id] replaced by the decimal of i, a hyphen and the item's name,
    whatever [_id] it had. *)
Theorem import_assigns_ids (text : string) (v : JSON.value)
  (json : PostmanCollection.t) (s : AppState) :
  JSON.parse text = Some v ->
  PostmanCollection.of_json v = Some json ->
  exists s' c,
    import text s = (Normal tt, s', [ReadAsText text])
    /\ collection s' = Some c
    /\ PostmanCollection.info c = PostmanCollection.info json
    /\ length (PostmanCollection.item c)
       = length (PostmanCollection.item json)
    /\ forall i item,
         PostmanCollection.item json !! i = Some item ->
         PostmanCollection.item c !! i
         = Some {| PostmanItem.name := PostmanItem.name item;
                   PostmanItem.request := PostmanItem.request item;
                   PostmanItem.response := PostmanItem.response item;
                   PostmanItem._id :=
                     Some (JSString.of_nat i +:+ "-"
                           +:+ PostmanItem.name item) |}.
Proof.
  intros Hv Hjson. eexists _, _. split; [|split; [|split; [|split]]].
  - rewrite import_unfold.
    by rewrite (reader_onload_parsed _ _ _ _ Hv Hjson).
  - reflexivity.
  - reflexivity.
  - cbn. apply length_imap.
  - intros i item Hi. cbn. by rewrite list_lookup_imap, Hi.
Qed.

Lemma import_assigns_ids_witness :
  exists s' c,
    import sample_file initial = (Normal tt, s', [ReadAsText sample_file])
    /\ collection s' = Some c
    /\ PostmanCollection.info c = PostmanCollection.info sample_collection
    /\ length (PostmanCollection.item c)
       = length (PostmanCollection.item sample_collection)
    /\ forall i item,
         PostmanCollection.item sample_collection !! i = Some item ->
         PostmanCollection.item c !! i
         = Some {| PostmanItem.name := PostmanItem.name item;
                   PostmanItem.request := PostmanItem.request item;
                   PostmanItem.response := PostmanItem.response item;
                   PostmanItem._id :=
                     Some (JSString.of_nat i +:+ "-"
                           +:+ PostmanItem.name item) |}.
Proof.
  apply (import_assigns_ids sample_file sample_value sample_collection
           initial).
  - vm_compute. reflexivity.
  - vm_compute. reflexivity.
Defined.

(** The identifiers given to the requests of the sample file. *)
Example import_sample_ids :
  (fun '(_, s, _) =>
     (fun c => PostmanItem._id <$> PostmanCollection.item c)
       <$> collection s)
    (import sample_file initial)
  = Some [Some "0-Get status"; Some "1-Reboot"].
Proof. vm_compute. reflexivity. Qed.

(** An identifier present in the file is replaced. *)
Example import_replaces_id :
  (fun '(_, s, _) =>
     (fun c => PostmanItem._id <$> PostmanCollection.item c)
       <$> collection s)
    (import
       (json_text
          "{'info':{'_postman_id':'c3','name':'One','schema':'v2.1'},
            'item':[{'name':'Ping','_id':'7-Pong',
                     'request':{'method':'GET','header':[],
                                'body':{'mode':'raw','raw':'{}'},
                                'url':'http://device/ping'},
                     'response':[]}]}")
       initial)
  = Some [Some "0-Ping"].
Proof. vm_compute. reflexivity. Qed.

(** C4, as the program has it. A successful import replaces the
    collection and selects its first request, and touches nothing else:
    the mock response, the analysis text and the analysis error are
    after the import what they were before it. *)
Theorem import_keeps_results (text : string) (v : JSON.value)
  (json : PostmanCollection.t) (s : AppState) :
  JSON.parse text = Some v ->
  PostmanCollection.of_json v = Some json ->
  exists s',
    import text s = (Normal tt, s', [ReadAsText text])
    /\ collection s'
       = Some (PostmanCollection.set_item
                 (imap enrich (PostmanCollection.item json)) json)
    /\ selectedItemId s' = Some 0%Z
    /\ response s' = response s
    /\ geminiResponse s' = geminiResponse s
    /\ geminiError s' = geminiError s
    /\ searchQuery s' = searchQuery s
    /\ isSending s' = isSending s
    /\ isLoadingGemini s' = isLoadingGemini s.
Proof.
  intros Hv Hjson. eexists. split.
  { rewrite import_unfold.
    by rewrite (reader_onload_parsed _ _ _ _ Hv Hjson). }
  repeat (split; [reflexivity|]). reflexivity.
Qed.

Lemma import_keeps_results_witness :
  exists s',
    import sample_file initial = (Normal tt, s', [ReadAsText sample_file])
    /\ collection s'
       = Some (PostmanCollection.set_item
                 (imap enrich (PostmanCollection.item sample_collection))
                 sample_collection)
    /\ selectedItemId s' = Some 0%Z
    /\ response s' = response initial
    /\ geminiResponse s' = geminiResponse initial
    /\ geminiError s' = geminiError initial
    /\ searchQuery s' = searchQuery initial
    /\ isSending s' = isSending initial
    /\ isLoadingGemini s' = isLoadingGemini initial.
Proof.
  apply (import_keeps_results sample_file sample_value sample_collection
           initial).
  - vm_compute. reflexivity.
  - vm_compute. reflexivity.
Defined.

(** C4 fails as stated: the sample file is imported and its first
    request sent and analysed, which leaves a mock response and an
    analysis error; the twin file is then imported with success, and
    both results are still there, beside a collection they were not
    made from. *)
Lemma import_keeps_results_counterexample :
  exists p,
    steps sample_env
      [ChooseFile (Some sample_file); FileRead 0;
       ClickSend 1735689600000; SendTimerFired 0 sample_clock;
       ClickAnalyze;
       ChooseFile (Some twin_file); FileRead 0]
      start_page = Some p
    /\ (PostmanInfo.name <$> (PostmanCollection.info <$> collection (app p)))
       = Some "Twins"
    /\ (MockResponse.status <$> response (app p)) = Some 200
    /\ geminiError (app p)
       = Some "Please set your GEMINI_API_KEY in .env.local file"
    /\ ~ (response (app p) = None /\ geminiResponse (app p) = None
          /\ geminiError (app p) = None).
Proof.
  eexists. split; [vm_compute; reflexivity|].
  split; [reflexivity|]. split; [reflexivity|]. split; [reflexivity|].
  intros (H & _). discriminate H.
Qed.

(** ** Mock send *)

(** The response the timer callback sets for [item]. *)
Lemma handleSendRequest_timeout_run (item : PostmanItem.t) (start : Z)
  (clock : Clock) (s : AppState) :
  handleSendRequest_timeout item start clock s
  = (Normal tt,
     setIsSending false
       (setResponse
          (Some
             match JSON.parse (PostmanBody.raw (PostmanRequest.body
                                                  (PostmanItem.request item)))
             with
             | Some bodyParsed =>
                 {| MockResponse.status := 200;
                    MockResponse.data :=
                      JSON.Object
                        [("success", JSON.Bool true);
                         ("msg", JSON.Str "Operation successful");
                         ("received_data", bodyParsed);
                         ("server_time", JSON.Str (toISOString clock))];
                    MockResponse.time := (now clock - start)%Z |}
             | None =>
                 {| MockResponse.status := 400;
                    MockResponse.data :=
                      JSON.Object
                        [("error",
                          JSON.Str "Malformed JSON in request body")];
                    MockResponse.time := (now clock - start)%Z |}
             end)
          s),
     []).
Proof. run_act. by destruct (JSON.parse _). Qed.

(** C1, as the program has it. The send sets a timer of 800 ms; when
    it fires, the response is decided by whether the raw body parses as
    JSON. If it does, the status is 200 and the payload has the members
    success (true), msg (Operation successful), received_data (the parsed
    body) and server_time (the timestamp read), in this order; if it
    does not, the status is 400 and the payload has the one member error
    (Malformed JSON in request body). *)
Theorem send_resolves_by_body (item : PostmanItem.t) (start : Z)
  (clock : Clock) (s : AppState) :
  let raw := PostmanBody.raw (PostmanRequest.body (PostmanItem.request item)) in
  (exists s1, handleSendRequest item start s = (Normal tt, s1, [SetTimeout 800]))
  /\ exists s' r,
       handleSendRequest_timeout item start clock s = (Normal tt, s', [])
       /\ response s' = Some r
       /\ isSending s' = false
       /\ match JSON.parse raw with
          | Some parsed =>
              MockResponse.status r = 200
              /\ MockResponse.data r
                 = JSON.Object
                     [("success", JSON.Bool true);
                      ("msg", JSON.Str "Operation successful");
                      ("received_data", parsed);
                      ("server_time", JSON.Str (toISOString clock))]
          | None =>
              MockResponse.status r = 400
              /\ MockResponse.data r
                 = JSON.Object
                     [("error", JSON.Str "Malformed JSON in request body")]
          end.
Proof.
  cbv zeta. split; [by eexists|].
  rewrite handleSendRequest_timeout_run. eexists _, _.
  split; [reflexivity|]. split; [reflexivity|]. split; [reflexivity|].
  by destruct (JSON.parse _).
Qed.

(** C1 fails as stated: for the body with member x equal to 1, which
    parses, the payload set is not the one with members receivedData
    and serverTime, and reading receivedData from it gives
    undefined. *)
Lemma send_payload_counterexample :
  let item := sample_item "Get status" "http://device/status"
                          (json_text "{'x':1}") in
  exists parsed s' r,
    JSON.parse (PostmanBody.raw (PostmanRequest.body
                                   (PostmanItem.request item)))
    = Some parsed
    /\ handleSendRequest_timeout item 1735689600000 sample_clock initial
       = (Normal tt, s', [])
    /\ response s' = Some r
    /\ MockResponse.status r = 200
    /\ MockResponse.data r
       <> payload_in_spec parsed (toISOString sample_clock)
    /\ JSON.get "receivedData" (Some (MockResponse.data r)) = Some None
    /\ JSON.get "serverTime" (Some (MockResponse.data r)) = Some None.
Proof.
  cbv zeta. eexists _, _, _.
  split; [vm_compute; reflexivity|].
  split; [vm_compute; reflexivity|].
  split; [reflexivity|]. split; [reflexivity|].
  split; [|split; reflexivity].
  intros H. vm_compute in H. discriminate H.
Qed.

(** ** Analysis *)

(** C9. With no credential, or with the placeholder as credential, the
    analysis of any request ends at once, in the same run as the click
    and without suspending: no request is issued, nothing is pending,
    the error shown asks to set the key, no text is shown, and the busy
    flag is down. *)
Theorem analyze_unconfigured (env : Env) (item : PostmanItem.t)
  (s : AppState) :
  GEMINI_API_KEY env = None
  \/ GEMINI_API_KEY env = Some PLACEHOLDER_API_KEY ->
  exists s',
    analyzeRequestWithGemini env item s = (Normal tt, s', [])
    /\ geminiError s'
       = Some "Please set your GEMINI_API_KEY in .env.local file"
    /\ geminiResponse s' = None
    /\ isLoadingGemini s' = false
    /\ collection s' = collection s
    /\ selectedItemId s' = selectedItemId s
    /\ response s' = response s.
Proof.
  intros Hkey. eexists. split.
  - run_act. destruct Hkey as [-> | ->]; reflexivity.
  - repeat (split; [reflexivity|]). reflexivity.
Qed.

Lemma analyze_unconfigured_witness :
  exists s',
    analyzeRequestWithGemini sample_env
      (sample_item "Reboot" "http://device/reboot" "not json") initial
    = (Normal tt, s', [])
    /\ geminiError s'
       = Some "Please set your GEMINI_API_KEY in .env.local file"
    /\ geminiResponse s' = None
    /\ isLoadingGemini s' = false
    /\ collection s' = collection initial
    /\ selectedItemId s' = selectedItemId initial
    /\ response s' = response initial.
Proof.
  apply (analyze_unconfigured sample_env
           (sample_item "Reboot" "http://device/reboot" "not json") initial).
  right. reflexivity.
Defined.

(** The state once [callGeminiAPI] has cleared the previous results. *)
Lemma callGeminiAPI_run (env : Env) (prompt : string) (s : AppState) :
  let cleared :=
    setGeminiError None (setGeminiResponse None (setIsLoadingGemini true s)) in
  callGeminiAPI env prompt s
  = if unconfigured (GEMINI_API_KEY env)
    then (Normal tt,
          setIsLoadingGemini false
            (setGeminiError
               (Some "Please set your GEMINI_API_KEY in .env.local file")
               cleared),
          [])
    else (Suspended, cleared,
          [Fetch (endpoint +:+ default EmptyString (GEMINI_API_KEY env))
                 "POST" [("Content-Type", "application/json")]
                 (request_body prompt)]).
Proof. run_act. by destruct (unconfigured _). Qed.

(** The completion calls one of the two setters, then lowers the busy
    flag. *)
Lemma callGeminiAPI_settled_run (env : Env) (settled : fetched)
  (s : AppState) :
  exists s',
    callGeminiAPI_settled env settled s = (Normal tt, s', [])
    /\ ((exists geminiText,
           s' = setIsLoadingGemini false (setGeminiResponse geminiText s))
        \/ (exists message,
              s' = setIsLoadingGemini false
                     (setGeminiError (Some message) s))).
Proof.
  run_act. destruct settled as [e|r]; cbn.
  - eexists. split; [reflexivity|]. right. by eexists.
  - destruct (Response.ok r); cbn.
    + destruct (JSON.parse (Response.text r)) as [data|]; cbn.
      * destruct (candidate_text data) as [geminiText|]; cbn.
        -- eexists. split; [reflexivity|]. left. by eexists.
        -- eexists. split; [reflexivity|]. right. by eexists.
      * eexists. split; [reflexivity|]. right. by eexists.
    + eexists. split; [reflexivity|]. right. by eexists.
Qed.

Ltac frame :=
  intros; run_act; unfold state_of, effects_of; cbn;
  repeat match goal with
         | |- context [match ?x with _ => _ end] => destruct x; cbn
         end;
  try done.

Lemma run_Some (a : Act unit) (p : Page) (s : AppState) (es : list Effect) :
  run a p = Some (s, es) ->
  s = state_of (a (app p)) /\ es = effects_of (a (app p)).
Proof.
  unfold run, state_of, effects_of.
  destruct (a (app p)) as [[[]]]; cbn; intros; by simplify_eq.
Qed.

Lemma handleFileUpload_frame (file : option string) (s : AppState) :
  gemini_view (state_of (handleFileUpload file s)) = gemini_view s
  /\ count_fetches (effects_of (handleFileUpload file s)) = 0.
Proof. destruct file; frame. Qed.

Lemma reader_onload_frame (text : string) (s : AppState) :
  gemini_view (state_of (reader_onload text s)) = gemini_view s
  /\ count_fetches (effects_of (reader_onload text s)) = 0.
Proof.
  run_act. unfold state_of, effects_of.
  destruct (JSON.parse text) as [v|]; cbn; [|done].
  destruct (enrichable v); cbn; [|done].
  destruct (PostmanCollection.of_json v); by cbn.
Qed.

Lemma search_onChange_frame (value : string) (s : AppState) :
  gemini_view (state_of (search_onChange value s)) = gemini_view s
  /\ count_fetches (effects_of (search_onChange value s)) = 0.
Proof. frame. Qed.

Lemma row_onClick_frame (index : Z) (s : AppState) :
  gemini_view (state_of (row_onClick index s)) = gemini_view s
  /\ count_fetches (effects_of (row_onClick index s)) = 0.
Proof. frame. Qed.

Lemma handleSendRequest_frame (item : PostmanItem.t) (start : Z)
  (s : AppState) :
  gemini_view (state_of (handleSendRequest item start s)) = gemini_view s
  /\ count_fetches (effects_of (handleSendRequest item start s)) = 0.
Proof. frame. Qed.

Lemma handleSendRequest_timeout_frame (item : PostmanItem.t) (start : Z)
  (clock : Clock) (s : AppState) :
  gemini_view (state_of (handleSendRequest_timeout item start clock s))
  = gemini_view s
  /\ count_fetches
       (effects_of (handleSendRequest_timeout item start clock s)) = 0.
Proof. by rewrite handleSendRequest_timeout_run. Qed.

(** Events other than the click on Analyze and the settlement of its
    request leave the analysis fields and the pending requests as they
    are. *)
Ltac step_cases Hstep :=
  unfold step, RequestEditor.handleCopy in Hstep;
  repeat lazymatch type of Hstep with
         | (_ ≫= _) = Some _ =>
             let Hx := fresh "Hrun" in
             apply bind_Some in Hstep as (? & Hx & Hstep)
         | (let '(_, _) := ?x in _) = Some _ => destruct x
         | (match ?x with _ => _ end) = Some _ => destruct x
         end;
  repeat match goal with
         | H : run _ _ = Some _ |- _ => apply run_Some in H as [-> ->]
         end;
  try (injection Hstep as <-).

Lemma step_gemini_frame (env : Env) (ev : Event) (p p' : Page) :
  step env ev p = Some p' ->
  match ev with
  | ClickAnalyze | FetchSettled _ => True
  | _ => gemini_view (app p') = gemini_view (app p)
         /\ fetches p' = fetches p
  end.
Proof.
  intros Hstep. destruct ev; try done; step_cases Hstep;
    cbn [app fetches rendered edited with_timers with_reads with_fetches];
    try (split; [reflexivity | lia]).
  - destruct (handleFileUpload_frame file (app p)) as [Hv Hf].
    rewrite ?Hv, ?Hf. split; [done | cbn; lia].
  - match goal with
    | |- context [reader_onload ?t _] =>
        destruct (reader_onload_frame t (app p)) as [Hv Hf]
    end.
    rewrite ?Hv, ?Hf. split; [done | cbn; lia].
  - destruct (search_onChange_frame value (app p)) as [Hv Hf].
    rewrite ?Hv, ?Hf. split; [done | cbn; lia].
  - match goal with
    | |- context [row_onClick ?i _] =>
        destruct (row_onClick_frame i (app p)) as [Hv Hf]
    end.
    rewrite ?Hv, ?Hf. split; [done | cbn; lia].
  - match goal with
    | |- context [handleSendRequest ?i ?n _] =>
        destruct (handleSendRequest_frame i n (app p)) as [Hv Hf]
    end.
    rewrite ?Hv, ?Hf. split; [done | cbn; lia].
  - match goal with
    | |- context [handleSendRequest_timeout ?i ?n ?c _] =>
        destruct (handleSendRequest_timeout_frame i n c (app p)) as [Hv Hf]
    end.
    rewrite ?Hv, ?Hf. split; [done | cbn; lia].
Qed.

Lemma gemini_view_inv (p p' : Page) :
  gemini_view (app p') = gemini_view (app p) ->
  fetches p' = fetches p ->
  analysis_inv p -> analysis_inv p'.
Proof.
  unfold analysis_inv, both_present, gemini_view.
  intros Hv Hf. injection Hv as -> -> ->. by rewrite Hf.
Qed.

Lemma step_analysis_inv (env : Env) (ev : Event) (p p' : Page) :
  step env ev p = Some p' -> analysis_inv p -> analysis_inv p'.
Proof.
  intros Hstep Hinv.
  pose proof (step_gemini_frame env ev p p' Hstep) as Hframe.
  destruct ev;
    try exact (gemini_view_inv _ _ (proj1 Hframe) (proj2 Hframe) Hinv);
    clear Hframe.
  - (* the click on Analyze *)
    step_cases Hstep. unfold analyzeRequestWithGemini.
    rewrite callGeminiAPI_run. destruct Hinv as (Hf & _ & _).
    match goal with H : isLoadingGemini (app p) = false |- _ =>
      rewrite H in Hf end.
    unfold analysis_inv, both_present.
    destruct (unconfigured _); cbn; rewrite Hf; cbn.
    + split; [done|]. split; [done|]. intros [[? [=]] _].
    + split; [done|]. split; [done|]. intros [[? [=]] _].
  - (* the settlement of its request *)
    step_cases Hstep. destruct Hinv as (Hf & Hclear & _).
    destruct (isLoadingGemini (app p)) eqn:Hbusy; [|lia].
    destruct (Hclear eq_refl) as [Hr He].
    destruct (callGeminiAPI_settled_run env settled (app p))
      as (s' & Hcall & Hs').
    unfold analysis_inv, both_present, state_of, effects_of.
    rewrite Hcall. cbn.
    destruct Hs' as [[geminiText ->] | [message ->]]; cbn;
      rewrite Hf; cbn.
    + split; [done|]. split; [done|]. rewrite He. intros [_ [? [=]]].
    + split; [done|]. split; [done|]. rewrite Hr. intros [[? [=]] _].
Qed.

Lemma reachable_analysis_inv (env : Env) (p : Page) :
  reachable env p -> analysis_inv p.
Proof.
  induction 1 as [|p ev p' _ IH Hstep].
  - unfold analysis_inv, both_present. cbn.
    split; [done|]. split; [done|]. intros [[? [=]] _].
  - exact (step_analysis_inv env ev p p' Hstep IH).
Qed.

(** Pages reached by a sequence of events. *)
Lemma steps_reachable (env : Env) (evs : list Event) (p p' : Page) :
  reachable env p -> steps env evs p = Some p' -> reachable env p'.
Proof.
  revert p. induction evs as [|ev evs IH]; intros p Hp; cbn [steps].
  - by intros [= <-].
  - intros H. apply bind_Some in H as (p1 & H1 & Hrest).
    exact (IH p1 (reachable_step env p ev p1 Hp H1) Hrest).
Qed.

(** The completion, by what the settlement carries. *)
Lemma callGeminiAPI_settled_text (env : Env) (settled : fetched)
  (s : AppState) :
  match analysis_text settled with
  | Some text =>
      callGeminiAPI_settled env settled s
      = (Normal tt, setIsLoadingGemini false (setGeminiResponse text s), [])
  | None =>
      exists message,
        callGeminiAPI_settled env settled s
        = (Normal tt,
           setIsLoadingGemini false (setGeminiError (Some message) s), [])
  end.
Proof.
  unfold analysis_text. run_act. destruct settled as [e|r]; cbn.
  - by eexists.
  - destruct (Response.ok r); cbn; [|by eexists].
    destruct (JSON.parse (Response.text r)) as [data|]; cbn; [|by eexists].
    destruct (candidate_text data) as [text|]; cbn; [done | by eexists].
Qed.

(** C10. A call of the analysis clears the text and the error, and
    either ends at once with the error set, or suspends with both still
    clear and one request issued. Its completion sets exactly one of the
    two: on success the text, which is the text the answer carries, with
    the error left clear; on every failure an error message, with the
    text left clear; and it lowers the busy flag. On every page the
    application can reach, a text and an error are never both present,
    and the settlement of the pending request leaves the text of the
    answer and no error, or an error and no text. *)
Theorem analysis_text_xor_error (env : Env) :
  (forall prompt s,
     exists ending s1 es,
       callGeminiAPI env prompt s = (ending, s1, es)
       /\ geminiResponse s1 = None
       /\ ((ending = Normal tt /\ es = [] /\ is_Some (geminiError s1)
            /\ isLoadingGemini s1 = false)
           \/ (ending = Suspended /\ count_fetches es = 1
               /\ geminiError s1 = None /\ isLoadingGemini s1 = true)))
  /\ (forall settled s,
        geminiResponse s = None -> geminiError s = None ->
        exists s',
          callGeminiAPI_settled env settled s = (Normal tt, s', [])
          /\ isLoadingGemini s' = false
          /\ match analysis_text settled with
             | Some text => geminiResponse s' = text /\ geminiError s' = None
             | None => geminiResponse s' = None /\ is_Some (geminiError s')
             end
          /\ ~ both_present s')
  /\ (forall p,
        reachable env p ->
        ~ both_present (app p)
        /\ forall settled p',
             step env (FetchSettled settled) p = Some p' ->
             isLoadingGemini (app p) = true
             /\ geminiResponse (app p) = None
             /\ geminiError (app p) = None
             /\ isLoadingGemini (app p') = false
             /\ match analysis_text settled with
                | Some text =>
                    geminiResponse (app p') = text
                    /\ geminiError (app p') = None
                | None =>
                    geminiResponse (app p') = None
                    /\ is_Some (geminiError (app p'))
                end).
Proof.
  assert (forall settled s,
            geminiResponse s = None -> geminiError s = None ->
            exists s',
              callGeminiAPI_settled env settled s = (Normal tt, s', [])
              /\ isLoadingGemini s' = false
              /\ match analysis_text settled with
                 | Some text =>
                     geminiResponse s' = text /\ geminiError s' = None
                 | None =>
                     geminiResponse s' = None /\ is_Some (geminiError s')
                 end
              /\ ~ both_present s') as Hsettled.
  { intros settled s Hr He.
    pose proof (callGeminiAPI_settled_text env settled s) as H.
    unfold both_present.
    destruct (analysis_text settled) as [text|].
    - eexists. split; [exact H|]. cbn. split; [done|].
      split; [by split|]. rewrite He. intros [_ [? [=]]].
    - destruct H as [message H]. eexists. split; [exact H|]. cbn.
      split; [done|]. split; [split; [done | by eexists]|].
      rewrite Hr. intros [[? [=]] _]. }
  split; [|split].
  - intros prompt s. rewrite callGeminiAPI_run.
    destruct (unconfigured _); eexists _, _, _;
      (split; [reflexivity|]); (split; [reflexivity|]).
    + left. by repeat split.
    + right. by repeat split.
  - exact Hsettled.
  - intros p Hp.
    destruct (reachable_analysis_inv env p Hp) as (Hf & Hclear & Hboth).
    split; [exact Hboth|]. intros settled p' Hstep.
    step_cases Hstep.
    destruct (isLoadingGemini (app p)) eqn:Hbusy; [|lia].
    destruct (Hclear eq_refl) as [Hr He].
    destruct (Hsettled settled (app p) Hr He) as (s' & Hcall & Hl & Ht & _).
    unfold state_of. rewrite Hcall. cbn.
    by repeat (split; [done|]).
Qed.

Lemma analysing_page_reachable : reachable keyed_env analysing_page.
Proof.
  apply (steps_reachable keyed_env
           [ChooseFile (Some sample_file); FileRead 0; ClickAnalyze]
           start_page);
    [apply reachable_start | vm_compute; reflexivity].
Qed.

Lemma analysis_text_xor_error_witness :
  isLoadingGemini (app analysing_page) = true
  /\ geminiResponse (app analysing_page) = None
  /\ geminiError (app analysing_page) = None
  /\ isLoadingGemini (app analysed_page) = false
  /\ geminiResponse (app analysed_page) = Some (JSON.Str "Looks fine")
  /\ geminiError (app analysed_page) = None.
Proof.
  pose proof (proj2 (proj2 (proj2 (analysis_text_xor_error keyed_env))
                       analysing_page analysing_page_reachable)
                (Resolved sample_answer) analysed_page) as H.
  assert (analysis_text (Resolved sample_answer)
          = Some (Some (JSON.Str "Looks fine"))) as Htext
      by (vm_compute; reflexivity).
  rewrite Htext in H. apply H. vm_compute. reflexivity.
Defined.

(** ** The tab of the editor *)

Lemma render_activeTab (changed : bool) (s : AppState)
  (ed : option RequestEditor.State) (st' : RequestEditor.State) :
  render changed s ed = Some st' ->
  RequestEditor.activeTab st'
  = match ed with
    | Some st => RequestEditor.activeTab st
    | None => RequestEditor.body
    end.
Proof.
  unfold render. destruct (selectedItem s) as [item|]; [|done].
  destruct ed as [st|]; intros [= <-]; [|done].
  by destruct changed.
Qed.

(** C3, as the program has it. An editor instance starts on the Body
    tab. A later render of the instance keeps the tab it had, whether or
    not the request it is given changed; a changed request only sets the
    URL field to that request's URL. So after any event the tab of
    the editor is the one clicked if the event is a click on a tab, the
    one before the event if an instance was already there, and Body if
    the instance is new: a new selection shows Body only if Body was
    shown before it or no request was selected before it. *)
Theorem tab_kept_across_selections (env : Env) :
  (forall item,
     RequestEditor.activeTab (RequestEditor.mount item) = RequestEditor.body)
  /\ (forall changed item st,
        RequestEditor.activeTab (RequestEditor.update changed item st)
        = RequestEditor.activeTab st
        /\ RequestEditor.url (RequestEditor.update true item st)
           = url_text (PostmanRequest.url (PostmanItem.request item)))
  /\ (forall ev p p' st',
        step env ev p = Some p' ->
        editor p' = Some st' ->
        RequestEditor.activeTab st'
        = match editor p, ev with
          | Some _, ClickTab t => t
          | Some st, _ => RequestEditor.activeTab st
          | None, _ => RequestEditor.body
          end).
Proof.
  split; [done|]. split; [by intros []|].
  intros ev p p' st' Hstep Hed.
  destruct ev; step_cases Hstep;
    cbn [editor rendered edited with_timers with_reads with_fetches] in Hed;
    try (rewrite (render_activeTab _ _ _ _ Hed); by destruct (editor p)).
  all: injection Hed as <-.
  all: match goal with H : editor _ = Some _ |- _ => by rewrite H end.
Qed.

Lemma tab_kept_across_selections_witness :
  step sample_env (ClickRow 1) sample_page = Some sample_page_next
  /\ editor sample_page_next = Some sample_editor
  /\ RequestEditor.activeTab sample_editor = RequestEditor.headers.
Proof.
  assert (step sample_env (ClickRow 1) sample_page = Some sample_page_next)
    as Hstep by (vm_compute; reflexivity).
  assert (editor sample_page_next = Some sample_editor)
    as Hed by (vm_compute; reflexivity).
  split; [exact Hstep|]. split; [exact Hed|].
  rewrite (proj2 (proj2 (tab_kept_across_selections sample_env))
             (ClickRow 1) sample_page sample_page_next sample_editor
             Hstep Hed).
  vm_compute. reflexivity.
Defined.

(** C3 fails as stated: with the sample file loaded and the Headers tab
    open on its first request, a click on the second request binds the
    editor to that request (its URL field follows) and the tab is still
    Headers. *)
Lemma tab_reset_counterexample :
  exists p p',
    steps sample_env
      [ChooseFile (Some sample_file); FileRead 0;
       ClickTab RequestEditor.headers] start_page = Some p
    /\ step sample_env (ClickRow 1) p = Some p'
    /\ (PostmanItem.name <$> selectedItem (app p)) = Some "Get status"
    /\ (PostmanItem.name <$> selectedItem (app p')) = Some "Reboot"
    /\ (RequestEditor.url <$> editor p') = Some "http://device/reboot"
    /\ (RequestEditor.activeTab <$> editor p') = Some RequestEditor.headers
    /\ (RequestEditor.activeTab <$> editor p') <> Some RequestEditor.body.
Proof.
  eexists _, _.
  split; [vm_compute; reflexivity|].
  split; [vm_compute; reflexivity|].
  repeat (split; [reflexivity|]). discriminate.
Qed.

(** ** Selecting a row of the filtered list *)

Section Positions.
Context {A : Type} (f : A -> bool).

Lemma filter_numbered_snd (g : nat -> nat) (l : list A) :
  snd <$> List.filter (fun p => f (snd p)) (imap (fun i x => (g i, x)) l)
  = List.filter f l.
Proof.
  revert g. induction l as [|x l IH]; intros g; [done|].
  cbn. destruct (f x); cbn; [f_equal|]; exact (IH (g ∘ S)).
Qed.

Lemma filter_numbered_lookup (g : nat -> nat) (l : list A) (k j : nat)
  (x : A) :
  List.filter (fun p => f (snd p)) (imap (fun i x => (g i, x)) l) !! k
  = Some (j, x) ->
  exists i, j = g i /\ l !! i = Some x.
Proof.
  revert g k. induction l as [|y l IH]; intros g k; [done|].
  cbn. destruct (f y); cbn.
  - destruct k as [|k]; cbn.
    + intros [= <- <-]. by exists 0.
    + intros H. destruct (IH (g ∘ S) k H) as (i & -> & Hi). by exists (S i).
  - intros H. destruct (IH (g ∘ S) k H) as (i & -> & Hi). by exists (S i).
Qed.

Lemma filter_positions (l : list A) (k : nat) (x : A) :
  List.filter f l !! k = Some x ->
  exists j,
    (fst <$> List.filter (fun p => f (snd p)) (imap pair l)) !! k = Some j
    /\ l !! j = Some x.
Proof.
  change (imap pair l) with (imap (fun i x => (id i, x)) l).
  rewrite <- (filter_numbered_snd id), !list_lookup_fmap.
  destruct (List.filter _ (imap _ _) !! k) as [[j y]|] eqn:Hj; [|done].
  intros [= <-].
  destruct (filter_numbered_lookup id _ _ _ _ Hj) as (i & -> & Hi).
  by exists i.
Qed.

End Positions.

(** The rows show the filtered requests, and the position recorded for
    the k-th request shown is a position of that request in the
    collection. *)
Lemma rows_shown (s : AppState) (c : PostmanCollection.t) (k : nat)
  (item : PostmanItem.t) (index : Z) :
  collection s = Some c ->
  rows s !! k = Some (item, index) ->
  index = originalIndex c item
  /\ exists j, shown_positions s !! k = Some j
               /\ PostmanCollection.item c !! j = Some item.
Proof.
  intros Hc. unfold rows, shown_positions, filteredItems. rewrite Hc.
  rewrite list_lookup_fmap.
  destruct (List.filter _ _ !! k) as [item'|] eqn:Hk; [|done].
  intros [= <- <-]. split; [done|].
  exact (filter_positions
           (fun item =>
              JSString.includes
                (JSString.toLowerCase (PostmanItem.name item))
                (JSString.toLowerCase (searchQuery s)))
           _ _ _ Hk).
Qed.

(** A request whose name no other request has is found by its name at
    its own position. *)
Lemma originalIndex_unique_name (c : PostmanCollection.t) (j : nat)
  (item : PostmanItem.t) :
  NoDup (PostmanItem.name <$> PostmanCollection.item c) ->
  PostmanCollection.item c !! j = Some item ->
  originalIndex c item = Z.of_nat j.
Proof.
  intros Hnodup Hj. unfold originalIndex, findIndex.
  destruct (list_find _ _) as [[i y]|] eqn:Hfind.
  - apply list_find_Some in Hfind as (Hi & Hname & _).
    f_equal. apply (proj1 (NoDup_alt _) Hnodup i j (PostmanItem.name item)).
    + by rewrite list_lookup_fmap, Hi, <- Hname.
    + by rewrite list_lookup_fmap, Hj.
  - apply list_find_None in Hfind.
    rewrite Forall_forall in Hfind.
    destruct (Hfind item); [|done].
    by eapply list_elem_of_lookup_2.
Qed.

(** When no two requests of the collection have the same name, the
    click on a row selects the position, in the unfiltered collection,
    of the request the row shows, and that request becomes the selected
    one. *)
Lemma select_shown_unique_names (s : AppState) (c : PostmanCollection.t)
  (k : nat) (item : PostmanItem.t) (index : Z) :
  collection s = Some c ->
  NoDup (PostmanItem.name <$> PostmanCollection.item c) ->
  rows s !! k = Some (item, index) ->
  exists j,
    shown_positions s !! k = Some j
    /\ index = Z.of_nat j
    /\ selectedItem (state_of (row_onClick index s)) = Some item.
Proof.
  intros Hc Hnodup Hrow.
  destruct (rows_shown s c k item index Hc Hrow) as (-> & j & Hj & Hitem).
  exists j. split; [done|].
  rewrite (originalIndex_unique_name c j item Hnodup Hitem).
  split; [done|].
  unfold selectedItem, state_of, row_onClick, call. cbn. rewrite Hc.
  assert ((0 <=? Z.of_nat j)%Z = true) as -> by (apply Z.leb_le; lia).
  by rewrite Nat2Z.id.
Qed.

(** C2 on the twin file (the program departs from the claim here). The
    two requests of the file have one name. Both are shown; the second
    row shows the request at position 1 of the collection, and the index
    its click selects is 0: after the click the selected request is the
    first one, not the one clicked. *)
Theorem select_twin_resolves_to_first :
  exists p p' first second,
    steps sample_env [ChooseFile (Some twin_file); FileRead 0] start_page
    = Some p
    /\ (PostmanCollection.item <$> collection (app p))
       = Some [first; second]
    /\ first <> second
    /\ rows (app p) = [(first, 0%Z); (second, 0%Z)]
    /\ shown_positions (app p) = [0; 1]
    /\ step sample_env (ClickRow 1) p = Some p'
    /\ selectedItemId (app p') = Some 0%Z
    /\ selectedItem (app p') = Some first
    /\ selectedItem (app p') <> Some second.
Proof.
  eexists _, _, _, _.
  split; [vm_compute; reflexivity|].
  split; [vm_compute; reflexivity|].
  split; [discriminate|].
  split; [vm_compute; reflexivity|].
  split; [vm_compute; reflexivity|].
  split; [vm_compute; reflexivity|].
  split; [reflexivity|]. split; [reflexivity|].
  discriminate.
Qed.

(** ** Uploads in progress *)

Lemma search_onChange_upload (value : string) (s : AppState) :
  upload_frame (search_onChange value s) s.
Proof. done. Qed.

Lemma row_onClick_upload (index : Z) (s : AppState) :
  upload_frame (row_onClick index s) s.
Proof. done. Qed.

Lemma handleSendRequest_upload (item : PostmanItem.t) (start : Z)
  (s : AppState) :
  upload_frame (handleSendRequest item start s) s.
Proof. done. Qed.

Lemma handleSendRequest_timeout_upload (item : PostmanItem.t) (start : Z)
  (clock : Clock) (s : AppState) :
  upload_frame (handleSendRequest_timeout item start clock s) s.
Proof. by rewrite handleSendRequest_timeout_run. Qed.

Lemma analyzeRequestWithGemini_upload (env : Env) (item : PostmanItem.t)
  (s : AppState) :
  upload_frame (analyzeRequestWithGemini env item s) s.
Proof.
  unfold analyzeRequestWithGemini. rewrite callGeminiAPI_run.
  by destruct (unconfigured _).
Qed.

Lemma callGeminiAPI_settled_upload (env : Env) (settled : fetched)
  (s : AppState) :
  upload_frame (callGeminiAPI_settled env settled s) s.
Proof.
  destruct (callGeminiAPI_settled_run env settled s) as (s' & -> & Hs').
  by destruct Hs' as [[? ->] | [? ->]].
Qed.

Lemma reader_onload_upload (text : string) (s : AppState) :
  isUploading (state_of (reader_onload text s)) = false
  \/ fst (fst (reader_onload text s)) = Untyped.
Proof.
  run_act. unfold state_of.
  destruct (JSON.parse text) as [v|]; cbn; [|by left].
  destruct (enrichable v); cbn; [|by left].
  destruct (PostmanCollection.of_json v); cbn; [by left | by right].
Qed.

Lemma run_not_Untyped (a : Act unit) (p : Page) (x : AppState * list Effect) :
  run a p = Some x -> fst (fst (a (app p))) <> Untyped.
Proof. unfold run. by destruct (a (app p)) as [[[] ?] ?]. Qed.

Lemma step_upload_inv (env : Env) (ev : Event) (p p' : Page) :
  step env ev p = Some p' -> upload_inv p -> upload_inv p'.
Proof.
  intros Hstep Hinv. unfold upload_inv in *.
  destruct ev.
  - (* a file is chosen *)
    step_cases Hstep. destruct file as [f|]; cbn.
    + run_act. unfold effects_of, state_of. cbn.
      intros H. by apply app_eq_nil in H as [_ ?].
    + by rewrite app_nil_r.
  - (* a read completes *)
    unfold step in Hstep.
    apply bind_Some in Hstep as (result & Hk & Hstep).
    apply bind_Some in Hstep as ([s es] & Hrun & Hstep).
    pose proof (run_not_Untyped _ _ _ Hrun) as Htyped.
    apply run_Some in Hrun as [-> ->]. injection Hstep as <-. cbn.
    intros _. by destruct (reader_onload_upload result (app p)).
  - step_cases Hstep. cbn. rewrite ?app_nil_r. exact Hinv.
  - step_cases Hstep. cbn. rewrite ?app_nil_r. exact Hinv.
  - step_cases Hstep. cbn. rewrite ?app_nil_r. exact Hinv.
  - step_cases Hstep.
    match goal with
    | |- context [handleSendRequest_timeout ?i ?n ?c _] =>
        destruct (handleSendRequest_timeout_upload i n c (app p)) as [Hu Ht]
    end.
    cbn. rewrite Hu, Ht, app_nil_r. exact Hinv.
  - step_cases Hstep.
    match goal with
    | |- context [analyzeRequestWithGemini _ ?i _] =>
        destruct (analyzeRequestWithGemini_upload env i (app p)) as [Hu Ht]
    end.
    cbn. rewrite Hu, Ht, app_nil_r. exact Hinv.
  - step_cases Hstep.
    destruct (callGeminiAPI_settled_upload env settled (app p)) as [Hu Ht].
    cbn. rewrite Hu, Ht, app_nil_r. exact Hinv.
  - step_cases Hstep. cbn. rewrite ?app_nil_r. exact Hinv.
  - step_cases Hstep. cbn. rewrite ?app_nil_r. exact Hinv.
  - step_cases Hstep. cbn. rewrite ?app_nil_r. exact Hinv.
  - step_cases Hstep. cbn. rewrite ?app_nil_r. exact Hinv.
Qed.

Lemma reachable_upload_inv (env : Env) (p : Page) :
  reachable env p -> upload_inv p.
Proof.
  induction 1 as [|p ev p' _ IH Hstep]; [done|].
  exact (step_upload_inv env ev p p' Hstep IH).
Qed.

(** ** Import of a text that is not JSON *)

Lemma delete_length_app {A : Type} (l : list A) (x : A) :
  delete (length l) (l ++ [x]) = l.
Proof. induction l as [|y l IH]; [done|]. simpl. by f_equal. Qed.

(** C8. When the text is not valid JSON, choosing the file and reading
    it ends normally (the caller sees no exception) after one alert. The
    collection, the selection, the search text, the response of a send
    and the results of an analysis are as they were, and no pending read
    is gained or lost. The one field written is [isUploading], which
    ends false: the whole state is as it was exactly when no upload was
    in progress before. *)
Theorem import_malformed_unchanged (text : string) (env : Env) (p : Page) :
  JSON.parse text = None ->
  import text (app p)
  = (Normal tt, setIsUploading false (app p),
     [ReadAsText text; Alert "Invalid Postman Collection JSON"])
  /\ exists p1 p2,
       step env (ChooseFile (Some text)) p = Some p1
       /\ step env (FileRead (length (reads p))) p1 = Some p2
       /\ history p2
          = history p
            ++ [ReadAsText text; Alert "Invalid Postman Collection JSON"]
       /\ reads p2 = reads p
       /\ app p2 = setIsUploading false (app p)
       /\ collection (app p2) = collection (app p)
       /\ selectedItemId (app p2) = selectedItemId (app p)
       /\ selectedItem (app p2) = selectedItem (app p)
       /\ searchQuery (app p2) = searchQuery (app p)
       /\ response (app p2) = response (app p)
       /\ isSending (app p2) = isSending (app p)
       /\ geminiResponse (app p2) = geminiResponse (app p)
       /\ isLoadingGemini (app p2) = isLoadingGemini (app p)
       /\ geminiError (app p2) = geminiError (app p)
       /\ isUploading (app p2) = false
       /\ (app p2 = app p <-> isUploading (app p) = false).
Proof.
  intros Hv. split.
  { rewrite import_unfold. by rewrite (reader_onload_malformed _ _ Hv). }
  set (p1 := rendered false (setIsUploading true (app p))
               [ReadAsText text] p).
  assert (step env (ChooseFile (Some text)) p = Some p1) as H1
    by reflexivity.
  assert (reads p1 !! length (reads p) = Some text) as Hk.
  { cbn. by rewrite lookup_app_r, Nat.sub_diag by lia. }
  assert (delete (length (reads p)) (reads p1) = reads p) as Hdel
      by apply delete_length_app.
  set (p2 := rendered false (setIsUploading false (app p1))
               [Alert "Invalid Postman Collection JSON"]
               (with_reads (reads p) p1)).
  assert (step env (FileRead (length (reads p))) p1 = Some p2) as H2.
  { unfold step. rewrite Hk. cbn [mbind option_bind]. unfold run.
    rewrite (reader_onload_malformed _ _ Hv). cbn [mbind option_bind].
    by rewrite Hv, Hdel. }
  exists p1, p2. split; [exact H1|]. split; [exact H2|].
  split; [cbn; by rewrite <- app_assoc|].
  split; [cbn; by rewrite app_nil_r|].
  repeat (split; [reflexivity|]).
  split.
  - intros Heq. apply (f_equal isUploading) in Heq. by rewrite <- Heq.
  - intros Hidle. cbn. etransitivity; [|exact (setIsUploading_idle _ Hidle)].
    reflexivity.
Qed.

Lemma import_malformed_unchanged_witness :
  import "not json" (app sample_page)
  = (Normal tt, setIsUploading false (app sample_page),
     [ReadAsText "not json"; Alert "Invalid Postman Collection JSON"])
  /\ exists p1 p2,
       step sample_env (ChooseFile (Some "not json")) sample_page = Some p1
       /\ step sample_env (FileRead (length (reads sample_page))) p1
          = Some p2
       /\ history p2
          = history sample_page
            ++ [ReadAsText "not json";
                Alert "Invalid Postman Collection JSON"]
       /\ reads p2 = reads sample_page
       /\ app p2 = setIsUploading false (app sample_page)
       /\ collection (app p2) = collection (app sample_page)
       /\ selectedItemId (app p2) = selectedItemId (app sample_page)
       /\ selectedItem (app p2) = selectedItem (app sample_page)
       /\ searchQuery (app p2) = searchQuery (app sample_page)
       /\ response (app p2) = response (app sample_page)
       /\ isSending (app p2) = isSending (app sample_page)
       /\ geminiResponse (app p2) = geminiResponse (app sample_page)
       /\ isLoadingGemini (app p2) = isLoadingGemini (app sample_page)
       /\ geminiError (app p2) = geminiError (app sample_page)
       /\ isUploading (app p2) = false
       /\ (app p2 = app sample_page
           <-> isUploading (app sample_page) = false).
Proof.
  apply (import_malformed_unchanged "not json" sample_env sample_page).
  reflexivity.
Defined.

(** The whole state is not always as it was: with a collection loaded
    and another file still being read, the failed import of a text that
    is not JSON lowers [isUploading], which was up, while that other
    read is still pending. *)
Lemma import_malformed_counterexample :
  JSON.parse "not json" = None
  /\ reachable sample_env pending_page
  /\ is_Some (collection (app pending_page))
  /\ reads pending_page = [twin_file]
  /\ isUploading (app pending_page) = true
  /\ exists p',
       steps sample_env [ChooseFile (Some "not json"); FileRead 1]
             pending_page = Some p'
       /\ reads p' = [twin_file]
       /\ isUploading (app p') = false
       /\ app p' <> app pending_page.
Proof.
  split; [reflexivity|]. split.
  { apply (steps_reachable sample_env
             [ChooseFile (Some sample_file); FileRead 0;
              ChooseFile (Some twin_file)] start_page);
      [apply reachable_start | vm_compute; reflexivity]. }
  split; [by eexists|]. split; [reflexivity|]. split; [reflexivity|].
  eexists. split; [vm_compute; reflexivity|].
  split; [reflexivity|]. split; [reflexivity|].
  intros Heq. apply (f_equal isUploading) in Heq. discriminate Heq.
Qed.

(** * Further properties of the handlers *)

Lemma sample_page_reachable : reachable sample_env sample_page.
Proof.
  apply (steps_reachable sample_env
           [ChooseFile (Some sample_file); FileRead 0;
            ClickTab RequestEditor.headers] start_page);
    [apply reachable_start | vm_compute; reflexivity].
Qed.

Lemma twin_page_reachable : reachable sample_env twin_page.
Proof.
  apply (steps_reachable sample_env
           [ChooseFile (Some twin_file); FileRead 0] start_page);
    [apply reachable_start | vm_compute; reflexivity].
Qed.

(** ** Rows of the list *)

(** X1. The index a row selects is never -1: it is the first position of
    the collection whose request has the name of the request the row
    shows. It is at most the position of the request shown, and after
    the click a request of that name is the selected one. *)
Theorem row_selects_first_of_name (s : AppState) (c : PostmanCollection.t)
  (k : nat) (item : PostmanItem.t) (index : Z) :
  collection s = Some c ->
  rows s !! k = Some (item, index) ->
  exists j first shown,
    index = Z.of_nat j
    /\ PostmanCollection.item c !! j = Some first
    /\ PostmanItem.name first = PostmanItem.name item
    /\ (forall i y, PostmanCollection.item c !! i = Some y -> i < j ->
                    PostmanItem.name y <> PostmanItem.name item)
    /\ shown_positions s !! k = Some shown
    /\ j <= shown
    /\ selectedItem (state_of (row_onClick index s)) = Some first.
Proof.
  intros Hc Hrow.
  destruct (rows_shown s c k item index Hc Hrow) as (-> & shown & Hk & Hitem).
  unfold originalIndex, findIndex.
  destruct (list_find _ _) as [[j first]|] eqn:Hfind.
  - apply list_find_Some in Hfind as (Hj & Hname & Hmin).
    exists j, first, shown. split; [done|]. split; [done|].
    split; [done|]. split; [exact Hmin|]. split; [done|]. split.
    + destruct (decide (j <= shown)) as [|Hgt]; [done|].
      destruct (Hmin shown item Hitem); [lia | done].
    + unfold selectedItem, state_of, row_onClick, call. cbn. rewrite Hc.
      assert ((0 <=? Z.of_nat j)%Z = true) as -> by (apply Z.leb_le; lia).
      by rewrite Nat2Z.id.
  - apply list_find_None in Hfind. rewrite Forall_forall in Hfind.
    destruct (Hfind item); [|done]. by eapply list_elem_of_lookup_2.
Qed.

Lemma row_selects_first_of_name_witness :
  exists j first shown,
    0%Z = Z.of_nat j
    /\ PostmanCollection.item twin_collection !! j = Some first
    /\ PostmanItem.name first = PostmanItem.name twin_second
    /\ (forall i y,
          PostmanCollection.item twin_collection !! i = Some y -> i < j ->
          PostmanItem.name y <> PostmanItem.name twin_second)
    /\ shown_positions (app twin_page) !! 1 = Some shown
    /\ j <= shown
    /\ selectedItem (state_of (row_onClick 0 (app twin_page))) = Some first.
Proof.
  apply (row_selects_first_of_name (app twin_page) twin_collection 1
           twin_second 0%Z).
  - vm_compute. reflexivity.
  - vm_compute. reflexivity.
Defined.

(** ** Every event, in closed form *)

Lemma run_reader_onload (result : string) (p : Page) (s : AppState)
  (es : list Effect) :
  run (reader_onload result) p = Some (s, es) ->
  ((JSON.parse result = None
    \/ exists v, JSON.parse result = Some v /\ enrichable v = false)
   /\ s = setIsUploading false (app p)
   /\ es = [Alert "Invalid Postman Collection JSON"])
  \/ (exists v json,
        JSON.parse result = Some v
        /\ PostmanCollection.of_json v = Some json
        /\ s = setIsUploading false
                 (setSelectedItemId (Some 0%Z)
                    (setCollection
                       (Some (PostmanCollection.set_item
                                (imap enrich (PostmanCollection.item json))
                                json))
                       (app p)))
        /\ es = []).
Proof.
  intros Hrun. pose proof (run_not_Untyped _ _ _ Hrun) as Htyped.
  apply run_Some in Hrun as [-> ->].
  destruct (JSON.parse result) as [v|] eqn:Hv.
  - destruct (enrichable v) eqn:He.
    + destruct (PostmanCollection.of_json v) as [json|] eqn:Hjson.
      * right. exists v, json.
        by rewrite (reader_onload_parsed _ _ _ _ Hv Hjson).
      * exfalso. apply Htyped. run_act. by rewrite Hv, He, Hjson.
    + left. rewrite (reader_onload_raises _ _ _ Hv He).
      split; [right; by exists v | done].
  - left. rewrite (reader_onload_malformed _ _ Hv). split; [by left | done].
Qed.

Lemma step_spec (env : Env) (ev : Event) (p p' : Page) :
  step env ev p = Some p' ->
  match ev with
  | ChooseFile None => p' = rendered false (app p) [] p
  | ChooseFile (Some f) =>
      p' = rendered false (setIsUploading true (app p)) [ReadAsText f] p
  | FileRead k =>
      exists result,
        reads p !! k = Some result
        /\ (((JSON.parse result = None
              \/ exists v, JSON.parse result = Some v
                           /\ enrichable v = false)
             /\ p' = rendered false (setIsUploading false (app p))
                       [Alert "Invalid Postman Collection JSON"]
                       (with_reads (delete k (reads p)) p))
            \/ (exists v json,
                  JSON.parse result = Some v
                  /\ PostmanCollection.of_json v = Some json
                  /\ p' = rendered true
                            (setIsUploading false
                               (setSelectedItemId (Some 0%Z)
                                  (setCollection
                                     (Some (PostmanCollection.set_item
                                              (imap enrich
                                                 (PostmanCollection.item json))
                                              json))
                                     (app p))))
                            [] (with_reads (delete k (reads p)) p)))
  | TypeSearch value => p' = rendered false (setSearchQuery value (app p)) [] p
  | ClickRow k =>
      exists item index,
        rows (app p) !! k = Some (item, index)
        /\ p' = rendered
                  (negb (bool_decide (selectedItemId (app p) = Some index)))
                  (setSelectedItemId (Some index) (app p)) [] p
  | ClickSend now =>
      exists item,
        selectedItem (app p) = Some item
        /\ isSending (app p) = false
        /\ p' = rendered false (setResponse None (setIsSending true (app p)))
                  [SetTimeout 800]
                  (with_timers (timers p ++ [(item, now)]) p)
  | SendTimerFired k clock =>
      exists item start,
        timers p !! k = Some (item, start)
        /\ p' = rendered false
                  (setIsSending false
                     (setResponse (Some (mock_response item start clock))
                                  (app p)))
                  [] (with_timers (delete k (timers p)) p)
  | ClickAnalyze =>
      exists item,
        selectedItem (app p) = Some item
        /\ isLoadingGemini (app p) = false
        /\ p' = rendered false
                  (state_of (callGeminiAPI env (prompt_of item) (app p)))
                  (effects_of (callGeminiAPI env (prompt_of item) (app p)))
                  p
  | FetchSettled settled =>
      0 < fetches p
      /\ p' = rendered false
                (state_of (callGeminiAPI_settled env settled (app p))) []
                (with_fetches (fetches p - 1) p)
  | ClickTab t =>
      exists st,
        editor p = Some st
        /\ p' = edited (RequestEditor.tab_onClick t st) (copy_timers p) [] p
  | TypeUrl value =>
      exists st,
        editor p = Some st
        /\ p' = edited (RequestEditor.url_onChange value st) (copy_timers p)
                  [] p
  | ClickCopy =>
      exists st item,
        editor p = Some st
        /\ selectedItem (app p) = Some item
        /\ p' = edited (RequestEditor.setCopied true st) (copy_timers p + 1)
                  [ClipboardWrite
                     (PostmanBody.raw
                        (PostmanRequest.body (PostmanItem.request item)));
                   SetTimeout 2000] p
  | CopyTimerFired =>
      exists st,
        editor p = Some st
        /\ 0 < copy_timers p
        /\ p' = edited (RequestEditor.handleCopy_timeout st)
                  (copy_timers p - 1) [] p
  end.
Proof.
  intros Hstep. destruct ev.
  - step_cases Hstep. by destruct file.
  - unfold step in Hstep.
    apply bind_Some in Hstep as (result & Hk & Hstep).
    apply bind_Some in Hstep as ([s es] & Hrun & Hstep).
    injection Hstep as <-. exists result. split; [done|].
    destruct (run_reader_onload _ _ _ _ Hrun)
      as [(Hv & -> & ->) | (v & json & Hv & Hjson & -> & ->)].
    + left. split; [exact Hv|].
      by destruct Hv as [-> | (v & -> & ->)].
    + right. exists v, json.
      by rewrite Hv, (of_json_enrichable v json Hjson).
  - by step_cases Hstep.
  - step_cases Hstep. by eexists _, _.
  - step_cases Hstep. by eexists.
  - step_cases Hstep. eexists _, _. split; [done|].
    unfold state_of, effects_of.
    by rewrite handleSendRequest_timeout_run.
  - step_cases Hstep. by eexists.
  - step_cases Hstep. split; [done|].
    destruct (callGeminiAPI_settled_run env settled (app p))
      as (s' & Hcall & _).
    unfold effects_of. by rewrite Hcall.
  - step_cases Hstep. by eexists.
  - step_cases Hstep. by eexists.
  - step_cases Hstep. by eexists _, _.
  - step_cases Hstep. by eexists.
Qed.

(** ** The mock send *)

Ltac step_inv Hstep :=
  apply step_spec in Hstep;
  repeat match type of Hstep with
         | match ?x with _ => _ end => destruct x
         | exists _, _ => destruct Hstep as (? & Hstep)
         | _ /\ _ => let H := fresh "Hev" in destruct Hstep as (H & Hstep)
         end.

Lemma step_send_inv (env : Env) (ev : Event) (p p' : Page) :
  step env ev p = Some p' -> send_inv p -> send_inv p'.
Proof.
  intros Hstep [Hlen Hbusy]. unfold send_inv.
  destruct ev; step_inv Hstep.
  all: try (subst p'; cbn; (split; assumption)).
  - (* a read completes *)
    destruct Hstep as [[_ ->] | (v & json & _ & _ & ->)]; cbn; (split; assumption).
  - (* Send is clicked *)
    subst p'. cbn. rewrite length_app, Hlen, Hev0. cbn. split; [lia | done].
  - (* the send timer fires *)
    subst p'. cbn.
    rewrite length_delete by (by eexists).
    apply lookup_lt_Some in Hev.
    destruct (isSending (app p)); [|lia]. split; [lia | done].
  - (* Analyze is clicked *)
    subst p'. cbn. rewrite callGeminiAPI_run.
    destruct (unconfigured _); cbn; (split; assumption).
  - (* the analysis request settles *)
    subst p'. cbn.
    destruct (callGeminiAPI_settled_run env settled (app p))
      as (s' & Hcall & Hs').
    unfold state_of. rewrite Hcall. cbn.
    destruct Hs' as [[? ->] | [? ->]]; cbn; (split; assumption).
Qed.

Lemma reachable_send_inv (env : Env) (p : Page) :
  reachable env p -> send_inv p.
Proof.
  induction 1 as [|p ev p' _ IH Hstep]; [by split|].
  exact (step_send_inv env ev p p' Hstep IH).
Qed.

(** Which fields of [App] an event can write. *)
Lemma step_frames (env : Env) (ev : Event) (p p' : Page) :
  step env ev p = Some p' ->
  (match ev with
   | FileRead _ => True
   | _ => collection (app p') = collection (app p)
   end)
  /\ (match ev with
      | FileRead _ | ClickRow _ => True
      | _ => selectedItemId (app p') = selectedItemId (app p)
      end)
  /\ (match ev with
      | TypeSearch _ => True
      | _ => searchQuery (app p') = searchQuery (app p)
      end)
  /\ (match ev with
      | ClickSend _ | SendTimerFired _ _ => True
      | _ => response (app p') = response (app p)
             /\ isSending (app p') = isSending (app p)
      end)
  /\ (match ev with
      | ClickAnalyze | FetchSettled _ => True
      | _ => geminiResponse (app p') = geminiResponse (app p)
             /\ isLoadingGemini (app p') = isLoadingGemini (app p)
             /\ geminiError (app p') = geminiError (app p)
      end)
  /\ (match ev with
      | ChooseFile _ | FileRead _ => True
      | _ => isUploading (app p') = isUploading (app p)
      end).
Proof.
  intros Hstep. destruct ev; step_inv Hstep.
  all: try (subst p'; cbn; by repeat split).
  - destruct Hstep as [[_ ->] | (v & json & _ & _ & ->)]; cbn;
      by repeat split.
  - subst p'. cbn. rewrite callGeminiAPI_run.
    destruct (unconfigured _); cbn; by repeat split.
  - subst p'. cbn.
    destruct (callGeminiAPI_settled_run env settled (app p))
      as (s' & Hcall & Hs').
    unfold state_of. rewrite Hcall. cbn.
    destruct Hs' as [[? ->] | [? ->]]; cbn; by repeat split.
Qed.

(** X2. At most one mock send is in flight. On every page the
    application can reach, a send timer is pending exactly while
    [isSending] is up, and then no response is shown and a click on Send
    is refused; when the timer fires it is the only one, the flag goes
    down, no timer is left and a response is shown. *)
Theorem send_single_flight (env : Env) (p : Page) :
  reachable env p ->
  length (timers p) = (if isSending (app p) then 1 else 0)
  /\ (isSending (app p) = true ->
      response (app p) = None
      /\ forall now, step env (ClickSend now) p = None)
  /\ (forall k clock p',
        step env (SendTimerFired k clock) p = Some p' ->
        k = 0 /\ isSending (app p) = true
        /\ isSending (app p') = false /\ timers p' = []
        /\ is_Some (response (app p'))).
Proof.
  intros Hp. destruct (reachable_send_inv env p Hp) as [Hlen Hbusy].
  split; [done|]. split.
  - intros Hs. split; [by apply Hbusy|]. intros now.
    destruct (step env (ClickSend now) p) as [p'|] eqn:Hstep; [|done].
    step_inv Hstep. congruence.
  - intros k clock p' Hstep.
    pose proof (step_send_inv env _ p p' Hstep (conj Hlen Hbusy))
      as [Hlen' _].
    step_inv Hstep. apply lookup_lt_Some in Hev.
    destruct (isSending (app p)); [|lia].
    subst p'. cbn in *. split; [lia|]. split; [done|]. split; [done|].
    split; [by apply nil_length_inv | by eexists].
Qed.

Lemma sending_page_reachable : reachable sample_env sending_page.
Proof.
  apply (steps_reachable sample_env
           [ChooseFile (Some sample_file); FileRead 0;
            ClickSend 1735689600000] start_page);
    [apply reachable_start | vm_compute; reflexivity].
Qed.

Lemma send_single_flight_witness :
  isSending (app sending_page) = true
  /\ length (timers sending_page) = 1
  /\ response (app sending_page) = None
  /\ (forall now, step sample_env (ClickSend now) sending_page = None)
  /\ (forall p',
        step sample_env (SendTimerFired 0 sample_clock) sending_page
        = Some p' ->
        isSending (app p') = false /\ timers p' = []
        /\ is_Some (response (app p')))
  /\ is_Some (step sample_env (SendTimerFired 0 sample_clock) sending_page).
Proof.
  assert (isSending (app sending_page) = true) as Hbusy
      by (vm_compute; reflexivity).
  destruct (send_single_flight sample_env sending_page
              sending_page_reachable) as (Hlen & Hwhile & Hfire).
  rewrite Hbusy in Hlen. destruct (Hwhile Hbusy) as [Hr Hsend].
  split; [exact Hbusy|]. split; [exact Hlen|]. split; [exact Hr|].
  split; [exact Hsend|]. split.
  - intros p' Hstep.
    by destruct (Hfire 0 sample_clock p' Hstep) as (_ & _ & ? & ? & ?).
  - vm_compute. by eexists.
Defined.

Lemma mock_response_shaped (item : PostmanItem.t) (start : Z)
  (clock : Clock) :
  mock_shaped (mock_response item start clock).
Proof.
  unfold mock_shaped, mock_response. destruct (JSON.parse _).
  - left. split; [done|]. by eexists _, _.
  - by right.
Qed.

Lemma step_response_shaped (env : Env) (ev : Event) (p p' : Page) :
  step env ev p = Some p' ->
  (forall r, response (app p) = Some r -> mock_shaped r) ->
  forall r, response (app p') = Some r -> mock_shaped r.
Proof.
  intros Hstep Hinv r.
  pose proof (step_frames env ev p p' Hstep) as (_ & _ & _ & Hresp & _).
  destruct ev; try (rewrite (proj1 Hresp); by apply Hinv);
    step_inv Hstep; subst p'; cbn.
  - done.
  - intros [= <-]. apply mock_response_shaped.
Qed.

(** X3. Every response the application shows was made by the mock
    send: on every page it can reach, a response has status 200 and a
    payload of the four members success, msg, received_data and
    server_time in this order, or status 400 and the payload of the one
    member error. *)
Theorem responses_are_mock_shaped (env : Env) (p : Page)
  (r : MockResponse.t) :
  reachable env p ->
  response (app p) = Some r ->
  mock_shaped r.
Proof.
  intros Hp. revert r.
  induction Hp as [|p ev p' _ IH Hstep]; [done|].
  exact (step_response_shaped env ev p p' Hstep IH).
Qed.

Lemma sent_page_reachable : reachable sample_env sent_page.
Proof.
  apply (steps_reachable sample_env
           [ChooseFile (Some sample_file); FileRead 0;
            ClickSend 1735689600000; SendTimerFired 0 sample_clock]
           start_page);
    [apply reachable_start | vm_compute; reflexivity].
Qed.

Lemma responses_are_mock_shaped_witness : mock_shaped sent_response.
Proof.
  apply (responses_are_mock_shaped sample_env sent_page sent_response).
  - exact sent_page_reachable.
  - vm_compute. reflexivity.
Defined.

(** While a send is in flight, events other than the firing of its
    timer leave the timer as it is. *)
Lemma steps_keep_timer (env : Env) (evs : list Event) (p p' : Page) :
  reachable env p ->
  isSending (app p) = true ->
  Forall (fun ev => forall k clock, ev <> SendTimerFired k clock) evs ->
  steps env evs p = Some p' ->
  timers p' = timers p /\ isSending (app p') = true.
Proof.
  revert p. induction evs as [|ev evs IH]; intros p Hp Hs Hevs;
    cbn [steps].
  - by intros [= <-].
  - intros H. apply bind_Some in H as (p1 & H1 & Hrest).
    apply Forall_cons in Hevs as [Hev Hevs].
    assert (timers p1 = timers p /\ isSending (app p1) = true) as [Ht Hs1].
    { pose proof (step_frames env ev p p1 H1) as (_ & _ & _ & Hresp & _).
      destruct ev; try (split; [|by rewrite (proj2 Hresp)]);
        step_inv H1; try (by subst p1).
      - destruct H1 as [[_ ->] | (v & json & _ & _ & ->)]; done.
      - congruence.
      - by destruct (Hev k clock). }
    destruct (IH p1 (reachable_step env p ev p1 Hp H1) Hs1 Hevs Hrest)
      as [Ht' Hs'].
    split; [congruence | done].
Qed.

(** X4. The response of a send is made from the request that was
    selected when Send was clicked. Whatever happens between the click
    and the firing of the timer (another request selected, another file
    imported, an analysis), the response then shown is the one computed
    from the request of the click and the time of the click. *)
Theorem send_answers_for_request_sent (env : Env) (p p1 p2 p3 : Page)
  (now : Z) (evs : list Event) (k : nat) (clock : Clock) :
  reachable env p ->
  step env (ClickSend now) p = Some p1 ->
  Forall (fun ev => forall k clock, ev <> SendTimerFired k clock) evs ->
  steps env evs p1 = Some p2 ->
  step env (SendTimerFired k clock) p2 = Some p3 ->
  exists item,
    selectedItem (app p) = Some item
    /\ response (app p3) = Some (mock_response item now clock)
    /\ isSending (app p3) = false.
Proof.
  intros Hp H1 Hevs H2 H3.
  pose proof (reachable_send_inv env p Hp) as [Hlen _].
  pose proof (reachable_step env p _ p1 Hp H1) as Hp1.
  step_inv H1. rename x into item. exists item. split; [done|].
  rewrite Hev0 in Hlen. apply nil_length_inv in Hlen.
  assert (isSending (app p1) = true) as Hs1 by (by subst p1).
  destruct (steps_keep_timer env evs p1 p2 Hp1 Hs1 Hevs H2) as [Ht _].
  assert (timers p2 = [(item, now)]) as Ht2.
  { rewrite Ht. subst p1. cbn. by rewrite Hlen. }
  step_inv H3. rewrite Ht2 in Hev1.
  destruct k as [|k]; [|by destruct k].
  injection Hev1 as <- <-. by subst p3.
Qed.

Lemma send_answers_for_request_sent_witness :
  exists item,
    selectedItem (app sample_page) = Some item
    /\ response
         (app (default start_page
                 (steps sample_env
                    [ClickSend 5; ClickRow 1; TypeSearch "re";
                     SendTimerFired 0 sample_clock] sample_page)))
       = Some (mock_response item 5 sample_clock)
    /\ isSending
         (app (default start_page
                 (steps sample_env
                    [ClickSend 5; ClickRow 1; TypeSearch "re";
                     SendTimerFired 0 sample_clock] sample_page)))
       = false.
Proof.
  apply (send_answers_for_request_sent sample_env sample_page
           (default start_page (step sample_env (ClickSend 5) sample_page))
           (default start_page
              (steps sample_env [ClickSend 5; ClickRow 1; TypeSearch "re"]
                     sample_page))
           _ 5 [ClickRow 1; TypeSearch "re"] 0 sample_clock).
  - exact sample_page_reachable.
  - vm_compute. reflexivity.
  - repeat constructor; discriminate.
  - vm_compute. reflexivity.
  - vm_compute. reflexivity.
Defined.

(** ** The selection and the editor *)

Lemma render_is_Some (changed : bool) (s : AppState)
  (ed : option RequestEditor.State) :
  is_Some (render changed s ed) <-> is_Some (selectedItem s).
Proof.
  unfold render. destruct (selectedItem s) as [item|].
  - split; intros _; [by eexists|]. destruct ed; by eexists.
  - done.
Qed.

(** The selection of a state in range: the part of [selection_inv] that
    is about [App] alone. *)
Lemma selectedItem_in_range (s : AppState) (c : PostmanCollection.t)
  (i : nat) :
  collection s = Some c ->
  selectedItemId s = Some (Z.of_nat i) ->
  i < length (PostmanCollection.item c)
  \/ (i = 0 /\ PostmanCollection.item c = []) ->
  selectedItem s = PostmanCollection.item c !! i
  /\ (is_Some (selectedItem s) <-> PostmanCollection.item c <> []).
Proof.
  intros Hc Hi Hrange. unfold selectedItem. rewrite Hc, Hi.
  assert ((0 <=? Z.of_nat i)%Z = true) as -> by (apply Z.leb_le; lia).
  rewrite Nat2Z.id. split; [done|].
  rewrite lookup_lt_is_Some.
  destruct Hrange as [Hlt | [-> ->]].
  - split; [|done]. intros _ Hnil. rewrite Hnil in Hlt. cbn in Hlt. lia.
  - cbn. split; [lia | done].
Qed.

Lemma selection_inv_intro (p : Page) :
  match collection (app p) with
  | None => selectedItemId (app p) = None
  | Some c =>
      exists i,
        selectedItemId (app p) = Some (Z.of_nat i)
        /\ (i < length (PostmanCollection.item c)
            \/ (i = 0 /\ PostmanCollection.item c = []))
  end ->
  (is_Some (editor p) <-> is_Some (selectedItem (app p))) ->
  selection_inv p.
Proof.
  unfold selection_inv. destruct (collection (app p)) as [c|] eqn:Hc.
  - intros (i & Hi & Hrange) Hed. exists i. split; [done|]. split; [done|].
    rewrite Hed.
    by destruct (selectedItem_in_range (app p) c i Hc Hi Hrange).
  - intros Hi Hed. split; [done|].
    unfold selectedItem in Hed. rewrite Hi in Hed.
    destruct (editor p); [|done]. by destruct (proj1 Hed (mk_is_Some _ _ eq_refl)).
Qed.

Lemma selection_inv_elim (p : Page) :
  selection_inv p ->
  match collection (app p) with
  | None => selectedItemId (app p) = None
  | Some c =>
      exists i,
        selectedItemId (app p) = Some (Z.of_nat i)
        /\ (i < length (PostmanCollection.item c)
            \/ (i = 0 /\ PostmanCollection.item c = []))
  end
  /\ (is_Some (editor p) <-> is_Some (selectedItem (app p))).
Proof.
  unfold selection_inv. destruct (collection (app p)) as [c|] eqn:Hc.
  - intros (i & Hi & Hrange & Hed). split; [by exists i|].
    rewrite Hed.
    by destruct (selectedItem_in_range (app p) c i Hc Hi Hrange).
  - intros [Hi ->]. split; [done|].
    unfold selectedItem. by rewrite Hi.
Qed.

Lemma rows_index_in_range (s : AppState) (c : PostmanCollection.t)
  (k : nat) (item : PostmanItem.t) (index : Z) :
  collection s = Some c ->
  rows s !! k = Some (item, index) ->
  exists j, index = Z.of_nat j /\ j < length (PostmanCollection.item c).
Proof.
  intros Hc Hrow.
  destruct (rows_shown s c k item index Hc Hrow) as (-> & shown & _ & Hitem).
  unfold originalIndex, findIndex.
  destruct (list_find _ _) as [[j first]|] eqn:Hfind.
  - apply list_find_Some in Hfind as (Hj & _ & _).
    exists j. split; [done|]. by eapply lookup_lt_Some.
  - apply list_find_None in Hfind. rewrite Forall_forall in Hfind.
    destruct (Hfind item); [|done]. by eapply list_elem_of_lookup_2.
Qed.

Lemma step_selection_inv (env : Env) (ev : Event) (p p' : Page) :
  step env ev p = Some p' -> selection_inv p -> selection_inv p'.
Proof.
  intros Hstep Hinv. apply selection_inv_elim in Hinv as [Hsel Hed].
  pose proof (step_frames env ev p p' Hstep) as (Hc & Hi & _).
  apply selection_inv_intro.
  - destruct ev; try (rewrite Hc, Hi; exact Hsel); step_inv Hstep.
    + (* a read completes *)
      destruct Hstep as [[_ ->] | (v & json & _ & _ & ->)]; cbn; [done|].
      exists 0. split; [done|]. rewrite length_imap.
      destruct (PostmanCollection.item json); cbn; [by right | left; lia].
    + (* a row is clicked *)
      rewrite Hc. destruct (collection (app p)) as [c|] eqn:Hcol.
      * destruct (rows_index_in_range (app p) c _ _ _ Hcol Hev)
          as (j & -> & Hj).
        subst p'. cbn. exists j. split; [done | by left].
      * unfold rows in Hev. by rewrite Hcol in Hev.
  - destruct ev; step_inv Hstep;
      try (subst p'; cbn [editor app rendered with_timers with_reads
                            with_fetches]; by apply render_is_Some).
    + destruct Hstep as [[_ ->] | (v & json & _ & _ & ->)];
        cbn [editor app rendered with_timers with_reads with_fetches];
        by apply render_is_Some.
    + subst p'. cbn. rewrite <- Hed, Hev. split; intros _; by eexists.
    + subst p'. cbn. rewrite <- Hed, Hev. split; intros _; by eexists.
    + subst p'. cbn. rewrite <- Hed, Hev. split; intros _; by eexists.
    + subst p'. cbn. rewrite <- Hed, Hev. split; intros _; by eexists.
Qed.

Lemma reachable_selection_inv (env : Env) (p : Page) :
  reachable env p -> selection_inv p.
Proof.
  induction 1 as [|p ev p' _ IH Hstep]; [by split|].
  exact (step_selection_inv env ev p p' Hstep IH).
Qed.

(** X5. On every page the application can reach: while no collection
    is loaded nothing is selected and the editor is not shown; once one
    is loaded an index is always selected, it lies within the collection
    (it is 0 for an empty collection), and the editor is shown exactly
    when the collection is not empty, on the request at that index. *)
Theorem selection_stays_in_range (env : Env) (p : Page) :
  reachable env p ->
  match collection (app p) with
  | None =>
      selectedItemId (app p) = None /\ selectedItem (app p) = None
      /\ editor p = None
  | Some c =>
      exists i,
        selectedItemId (app p) = Some (Z.of_nat i)
        /\ (i < length (PostmanCollection.item c)
            \/ (i = 0 /\ PostmanCollection.item c = []))
        /\ selectedItem (app p) = PostmanCollection.item c !! i
        /\ (is_Some (editor p) <-> PostmanCollection.item c <> [])
  end.
Proof.
  intros Hp. pose proof (reachable_selection_inv env p Hp) as Hinv.
  unfold selection_inv in Hinv.
  destruct (collection (app p)) as [c|] eqn:Hc.
  - destruct Hinv as (i & Hi & Hrange & Hed). exists i.
    split; [done|]. split; [done|]. split; [|done].
    by destruct (selectedItem_in_range (app p) c i Hc Hi Hrange).
  - destruct Hinv as [Hi Hed]. split; [done|]. split; [|done].
    unfold selectedItem. by rewrite Hi.
Qed.

Lemma selection_stays_in_range_witness :
  exists i,
    selectedItemId (app sample_page_next) = Some (Z.of_nat i)
    /\ (i < length (PostmanCollection.item
                      (PostmanCollection.set_item
                         (imap enrich (PostmanCollection.item sample_collection))
                         sample_collection))
        \/ (i = 0
            /\ PostmanCollection.item
                 (PostmanCollection.set_item
                    (imap enrich (PostmanCollection.item sample_collection))
                    sample_collection) = []))
    /\ selectedItem (app sample_page_next)
       = PostmanCollection.item
           (PostmanCollection.set_item
              (imap enrich (PostmanCollection.item sample_collection))
              sample_collection) !! i
    /\ (is_Some (editor sample_page_next)
        <-> PostmanCollection.item
              (PostmanCollection.set_item
                 (imap enrich (PostmanCollection.item sample_collection))
                 sample_collection) <> []).
Proof.
  exact (selection_stays_in_range sample_env sample_page_next
           (reachable_step sample_env sample_page (ClickRow 1)
              sample_page_next sample_page_reachable eq_refl)).
Defined.

(** ** The analysis *)

(** X6. At most one analysis is in flight. On every page the
    application can reach, a request is pending exactly while
    [isLoadingGemini] is up, and then neither text nor error is shown
    and a click on Analyze is refused; when the request settles the flag
    goes down and no request is left pending. *)
Theorem analysis_single_flight (env : Env) (p : Page) :
  reachable env p ->
  fetches p = (if isLoadingGemini (app p) then 1 else 0)
  /\ (isLoadingGemini (app p) = true ->
      geminiResponse (app p) = None /\ geminiError (app p) = None
      /\ step env ClickAnalyze p = None)
  /\ (forall settled p',
        step env (FetchSettled settled) p = Some p' ->
        isLoadingGemini (app p) = true
        /\ isLoadingGemini (app p') = false /\ fetches p' = 0).
Proof.
  intros Hp. destruct (reachable_analysis_inv env p Hp) as (Hf & Hclear & _).
  split; [done|]. split.
  - intros Hbusy. destruct (Hclear Hbusy) as [Hr He].
    split; [done|]. split; [done|].
    destruct (step env ClickAnalyze p) as [p'|] eqn:Hstep; [|done].
    step_inv Hstep. congruence.
  - intros settled p' Hstep.
    pose proof (reachable_analysis_inv env p'
                  (reachable_step env p _ p' Hp Hstep)) as (Hf' & _ & _).
    step_inv Hstep.
    destruct (isLoadingGemini (app p)); [|lia]. split; [done|].
    destruct (callGeminiAPI_settled_run env settled (app p))
      as (s' & Hcall & Hs').
    assert (isLoadingGemini (app p') = false) as Hdown.
    { subst p'. cbn. unfold state_of. rewrite Hcall. cbn.
      by destruct Hs' as [[? ->] | [? ->]]. }
    split; [done|]. by rewrite Hf', Hdown.
Qed.

Lemma analysis_single_flight_witness :
  isLoadingGemini (app analysing_page) = true
  /\ fetches analysing_page = 1
  /\ geminiResponse (app analysing_page) = None
  /\ geminiError (app analysing_page) = None
  /\ step keyed_env ClickAnalyze analysing_page = None
  /\ (forall settled p',
        step keyed_env (FetchSettled settled) analysing_page = Some p' ->
        isLoadingGemini (app p') = false /\ fetches p' = 0)
  /\ is_Some (step keyed_env (FetchSettled (Resolved sample_answer))
                   analysing_page).
Proof.
  assert (isLoadingGemini (app analysing_page) = true) as Hbusy
      by (vm_compute; reflexivity).
  destruct (analysis_single_flight keyed_env analysing_page
              analysing_page_reachable) as (Hf & Hwhile & Hsettle).
  rewrite Hbusy in Hf. destruct (Hwhile Hbusy) as (Hr & He & Hclick).
  split; [exact Hbusy|]. split; [exact Hf|]. split; [exact Hr|].
  split; [exact He|]. split; [exact Hclick|]. split.
  - intros settled p' Hstep.
    by destruct (Hsettle settled p' Hstep) as (_ & ? & ?).
  - vm_compute. by eexists.
Defined.

Lemma unconfigured_spec (env : Env) :
  unconfigured (GEMINI_API_KEY env) = false <-> configured env.
Proof.
  unfold unconfigured, configured. destruct (GEMINI_API_KEY env) as [k|].
  - rewrite orb_false_iff, !String.eqb_neq. split.
    + intros [? ?]. by exists k.
    + intros (k' & Heq & ? & ?). injection Heq as <-. done.
  - split; [done | intros (k & Heq & _); discriminate Heq].
Qed.

(** X7. The analysis calls the service exactly when a credential is
    set that is neither empty nor the placeholder. It then issues one
    POST to the endpoint with that key, a JSON content type and the
    prompt wrapped as contents, parts, text, and suspends with the busy
    flag up; in every other case (no key, the empty key, the
    placeholder) it issues nothing and ends with the error set. *)
Theorem analysis_calls_iff_configured (env : Env) (prompt : string)
  (s : AppState) :
  (configured env <->
   count_fetches (effects_of (callGeminiAPI env prompt s)) = 1)
  /\ (~ configured env <-> effects_of (callGeminiAPI env prompt s) = [])
  /\ (forall k,
        GEMINI_API_KEY env = Some k -> configured env ->
        callGeminiAPI env prompt s
        = (Suspended,
           setGeminiError None
             (setGeminiResponse None (setIsLoadingGemini true s)),
           [Fetch (endpoint +:+ k) "POST"
                  [("Content-Type", "application/json")]
                  (JSON.stringify
                     (JSON.Object
                        [("contents",
                          JSON.Array
                            [JSON.Object
                               [("parts",
                                 JSON.Array
                                   [JSON.Object
                                      [("text", JSON.Str prompt)]])]])])
                     0)]))
  /\ (~ configured env ->
      is_Some (geminiError (state_of (callGeminiAPI env prompt s)))
      /\ isLoadingGemini (state_of (callGeminiAPI env prompt s)) = false).
Proof.
  pose proof (unconfigured_spec env) as Hspec.
  rewrite callGeminiAPI_run.
  destruct (unconfigured _) eqn:Hu; cbn.
  - assert (~ configured env) as Hno
      by (intros Hc; apply Hspec in Hc; discriminate Hc).
    split; [split; [done | done]|]. split; [done|].
    split; [by intros k _ Hc|]. intros _. split; [by eexists | done].
  - assert (configured env) as Hyes by (by apply Hspec).
    split; [done|]. split; [split; [done | done]|].
    split; [|done]. intros k Hk _. by rewrite Hk.
Qed.

(** X8. How a settled analysis request fails. A rejected request shows
    the message of the thrown error (or the generic text when the thrown
    value is no error); a response whose status is not OK shows the
    status code and text, whatever its body; a body that is not JSON
    shows the engine's syntax error; a body in which
    [candidates[0].content.parts[0]] cannot be reached shows the
    engine's type error. In all four cases the text is left as it was,
    the busy flag goes down and nothing is thrown to the caller. *)
Theorem analysis_failures (env : Env) (s : AppState) :
  (forall e,
     callGeminiAPI_settled env (Rejected e) s
     = (Normal tt,
        setIsLoadingGemini false
          (setGeminiError
             (Some match e with
                   | ErrorObject message => message
                   | SyntaxError => SyntaxError_message env
                   | TypeError => TypeError_message env
                   | NotAnError =>
                       "An error occurred while calling Gemini API"
                   end) s),
        []))
  /\ (forall r,
        Response.ok r = false ->
        callGeminiAPI_settled env (Resolved r) s
        = (Normal tt,
           setIsLoadingGemini false
             (setGeminiError
                (Some ("Gemini API error: "
                       +:+ JSString.of_nat (Response.status r)
                       +:+ " " +:+ Response.statusText r)) s),
           []))
  /\ (forall r,
        Response.ok r = true ->
        JSON.parse (Response.text r) = None ->
        callGeminiAPI_settled env (Resolved r) s
        = (Normal tt,
           setIsLoadingGemini false
             (setGeminiError (Some (SyntaxError_message env)) s),
           []))
  /\ (forall r data,
        Response.ok r = true ->
        JSON.parse (Response.text r) = Some data ->
        candidate_text data = None ->
        callGeminiAPI_settled env (Resolved r) s
        = (Normal tt,
           setIsLoadingGemini false
             (setGeminiError (Some (TypeError_message env)) s),
           [])).
Proof.
  split; [|split; [|split]].
  - intros e. run_act. by destruct e.
  - intros r Hok. run_act. cbn. by rewrite Hok.
  - intros r Hok Hv. run_act. cbn. by rewrite Hok, Hv.
  - intros r data Hok Hv Hpath. run_act. cbn. by rewrite Hok, Hv, Hpath.
Qed.

Lemma candidate_text_shape (m m0 m1 m2 : list (string * JSON.value))
  (more0 more1 : list JSON.value) :
  JSON.lookup "candidates" m = Some (JSON.Array (JSON.Object m0 :: more0)) ->
  JSON.lookup "content" m0 = Some (JSON.Object m1) ->
  JSON.lookup "parts" m1 = Some (JSON.Array (JSON.Object m2 :: more1)) ->
  candidate_text (JSON.Object m) = Some (JSON.lookup "text" m2).
Proof.
  intros H0 H1 H2. unfold candidate_text. cbn. rewrite H0. cbn.
  rewrite H1. cbn. by rewrite H2.
Qed.

(** X9. What a successful response shows. When the status is OK and
    the body is a JSON object whose [candidates] starts with an object,
    whose [content] is an object, whose [parts] starts with an object,
    the text shown is the [text] member of that last object, whatever
    JSON value it is, the error is left as it was and the busy flag goes
    down. When that object has no [text] member, nothing is shown:
    neither a text nor an error is set. *)
Theorem analysis_shows_candidate_text (env : Env) (s : AppState)
  (r : Response.t) (m m0 m1 m2 : list (string * JSON.value))
  (more0 more1 : list JSON.value) :
  Response.ok r = true ->
  JSON.parse (Response.text r) = Some (JSON.Object m) ->
  JSON.lookup "candidates" m = Some (JSON.Array (JSON.Object m0 :: more0)) ->
  JSON.lookup "content" m0 = Some (JSON.Object m1) ->
  JSON.lookup "parts" m1 = Some (JSON.Array (JSON.Object m2 :: more1)) ->
  callGeminiAPI_settled env (Resolved r) s
  = (Normal tt,
     setIsLoadingGemini false (setGeminiResponse (JSON.lookup "text" m2) s),
     [])
  /\ (JSON.lookup "text" m2 = None ->
      geminiResponse (state_of (callGeminiAPI_settled env (Resolved r) s))
      = None
      /\ geminiError (state_of (callGeminiAPI_settled env (Resolved r) s))
         = geminiError s).
Proof.
  intros Hok Hv H0 H1 H2.
  assert (callGeminiAPI_settled env (Resolved r) s
          = (Normal tt,
             setIsLoadingGemini false
               (setGeminiResponse (JSON.lookup "text" m2) s), [])) as Hrun.
  { run_act. rewrite Hok, Hv. cbv beta iota.
    by rewrite (candidate_text_shape m m0 m1 m2 more0 more1 H0 H1 H2). }
  split; [exact Hrun|]. intros Hnone. rewrite Hrun. cbn.
  by rewrite Hnone.
Qed.

Lemma analysis_shows_candidate_text_witness :
  callGeminiAPI_settled keyed_env (Resolved sample_answer) initial
  = (Normal tt,
     setIsLoadingGemini false
       (setGeminiResponse
          (JSON.lookup "text" [("text", JSON.Str "Looks fine")]) initial),
     [])
  /\ (JSON.lookup "text" [("text", JSON.Str "Looks fine")] = None ->
      geminiResponse
        (state_of (callGeminiAPI_settled keyed_env (Resolved sample_answer)
                                         initial))
      = None
      /\ geminiError
           (state_of (callGeminiAPI_settled keyed_env (Resolved sample_answer)
                                            initial))
         = geminiError initial).
Proof.
  apply (analysis_shows_candidate_text keyed_env initial sample_answer
           [("candidates",
             JSON.Array
               [JSON.Object
                  [("content",
                    JSON.Object
                      [("parts",
                        JSON.Array
                          [JSON.Object [("text", JSON.Str "Looks fine")]]);
                       ("role", JSON.Str "model")]);
                   ("index", JSON.Number JSON.zero)]])]
           [("content",
             JSON.Object
               [("parts",
                 JSON.Array [JSON.Object [("text", JSON.Str "Looks fine")]]);
                ("role", JSON.Str "model")]);
            ("index", JSON.Number JSON.zero)]
           [("parts",
             JSON.Array [JSON.Object [("text", JSON.Str "Looks fine")]]);
            ("role", JSON.Str "model")]
           [("text", JSON.Str "Looks fine")] [] []).
  - reflexivity.
  - vm_compute. reflexivity.
  - reflexivity.
  - reflexivity.
  - reflexivity.
Defined.

(** ** Bodies that are blank *)

Lemma lex_from_blank (toks : list JSON.token) (s : string) :
  blank s -> JSON.lex_from JSON.LStart toks s = Some (rev toks).
Proof.
  unfold blank. induction s as [|c s IH]; cbn; [done|].
  intros H. apply Forall_cons in H as [Hc Hs].
  unfold JSON.lex_start. rewrite Hc. by apply IH.
Qed.

Lemma parse_blank (s : string) : blank s -> JSON.parse s = None.
Proof.
  intros H. unfold JSON.parse, JSON.lex. by rewrite (lex_from_blank [] s H).
Qed.

(** X10. A request whose raw body is empty or made of spaces, tabs and
    line breaks only has no JSON in it: its send resolves with status
    400 and the payload of the one member error, and its Body tab shows
    the raw text as it is. *)
Theorem blank_body_is_malformed (item : PostmanItem.t) (start : Z)
  (clock : Clock) (s : AppState) :
  blank (PostmanBody.raw (PostmanRequest.body (PostmanItem.request item))) ->
  handleSendRequest_timeout item start clock s
  = (Normal tt,
     setIsSending false
       (setResponse
          (Some {| MockResponse.status := 400;
                   MockResponse.data :=
                     JSON.Object
                       [("error",
                         JSON.Str "Malformed JSON in request body")];
                   MockResponse.time := (now clock - start)%Z |}) s),
     [])
  /\ RequestEditor.content item RequestEditor.initial
     = RequestEditor.BodyText
         (PostmanBody.raw (PostmanRequest.body (PostmanItem.request item))).
Proof.
  intros Hblank. apply parse_blank in Hblank. split.
  - rewrite handleSendRequest_timeout_run. by rewrite Hblank.
  - unfold RequestEditor.content, RequestEditor.prettifyJson. cbn.
    by rewrite Hblank.
Qed.

Lemma blank_body_is_malformed_witness :
  handleSendRequest_timeout (sample_item "Ping" "http://device/ping" "  ")
    5 sample_clock initial
  = (Normal tt,
     setIsSending false
       (setResponse
          (Some {| MockResponse.status := 400;
                   MockResponse.data :=
                     JSON.Object
                       [("error",
                         JSON.Str "Malformed JSON in request body")];
                   MockResponse.time := (now sample_clock - 5)%Z |}) initial),
     [])
  /\ RequestEditor.content (sample_item "Ping" "http://device/ping" "  ")
                           RequestEditor.initial
     = RequestEditor.BodyText
         (PostmanBody.raw
            (PostmanRequest.body
               (PostmanItem.request
                  (sample_item "Ping" "http://device/ping" "  ")))).
Proof.
  apply (blank_body_is_malformed
           (sample_item "Ping" "http://device/ping" "  ") 5 sample_clock
           initial).
  repeat constructor.
Defined.

(** ** The identifiers given at import *)

Lemma of_nat_inj (a b : nat) : JSString.of_nat a = JSString.of_nat b -> a = b.
Proof.
  unfold JSString.of_nat. intros H.
  apply (f_equal NilEmpty.uint_of_string) in H.
  rewrite !NilEmpty.usu in H. injection H as H.
  apply (f_equal Nat.of_uint) in H.
  by rewrite !Unsigned.of_to in H.
Qed.

Lemma string_of_uint_hyphen_free (d : Decimal.uint) :
  hyphen_free (NilEmpty.string_of_uint d).
Proof. induction d; cbn; (split; [discriminate | done]) || done. Qed.

Lemma hyphen_free_prefix (a b x y : string) :
  hyphen_free a -> hyphen_free b ->
  a +:+ "-" +:+ x = b +:+ "-" +:+ y -> a = b.
Proof.
  revert b. induction a as [|c a IH]; intros [|d b] Ha Hb; cbn in *.
  - done.
  - rewrite append_empty, !append_String. intros [= <- _]. by destruct Hb.
  - rewrite append_empty, !append_String. intros [= -> _]. by destruct Ha.
  - rewrite !append_String. intros [= -> H]. f_equal.
    apply IH; [by destruct Ha | by destruct Hb | done].
Qed.

Lemma enrich_id_inj (i j : nat) (x y : PostmanItem.t) :
  PostmanItem._id (enrich i x) = PostmanItem._id (enrich j y) -> i = j.
Proof.
  cbn. intros [= H]. apply of_nat_inj.
  eapply hyphen_free_prefix; [| |exact H];
    apply string_of_uint_hyphen_free.
Qed.

(** X11. The identifiers given by one import are pairwise different,
    whatever the names are (equal names included): the identifier of a
    request starts with its position and a hyphen, and no two positions
    have the same decimal. Every request of the imported collection has
    an identifier. *)
Theorem imported_ids_distinct (text : string) (v : JSON.value)
  (json : PostmanCollection.t) (s : AppState) :
  JSON.parse text = Some v ->
  PostmanCollection.of_json v = Some json ->
  exists c,
    collection (state_of (import text s)) = Some c
    /\ NoDup (PostmanItem._id <$> PostmanCollection.item c)
    /\ Forall (fun item => is_Some (PostmanItem._id item))
              (PostmanCollection.item c)
    /\ (forall i j a b,
          PostmanCollection.item c !! i = Some a ->
          PostmanCollection.item c !! j = Some b ->
          PostmanItem._id a = PostmanItem._id b -> i = j).
Proof.
  intros Hv Hjson. eexists. split.
  { rewrite import_unfold.
    by rewrite (reader_onload_parsed _ _ _ _ Hv Hjson). }
  cbn.
  assert (forall i j a b,
            imap enrich (PostmanCollection.item json) !! i = Some a ->
            imap enrich (PostmanCollection.item json) !! j = Some b ->
            PostmanItem._id a = PostmanItem._id b -> i = j) as Hinj.
  { intros i j a b. rewrite !list_lookup_imap.
    destruct (_ !! i) as [x|]; [|done]. destruct (_ !! j) as [y|]; [|done].
    intros [= <-] [= <-]. apply enrich_id_inj. }
  split; [|split; [|exact Hinj]].
  - apply NoDup_alt. intros i j o. rewrite !list_lookup_fmap.
    destruct (_ !! i) as [a|] eqn:Ha; [|done].
    destruct (_ !! j) as [b|] eqn:Hb; [|done].
    intros [= <-] [= Hab]. by apply (Hinj i j a b).
  - apply Forall_forall. intros a Ha.
    apply list_elem_of_lookup in Ha as [i Hi].
    rewrite list_lookup_imap in Hi.
    destruct (_ !! i) as [x|]; [|done]. injection Hi as <-. by eexists.
Qed.

Lemma imported_ids_distinct_witness :
  exists c,
    collection (state_of (import twin_file initial)) = Some c
    /\ NoDup (PostmanItem._id <$> PostmanCollection.item c)
    /\ Forall (fun item => is_Some (PostmanItem._id item))
              (PostmanCollection.item c)
    /\ (forall i j a b,
          PostmanCollection.item c !! i = Some a ->
          PostmanCollection.item c !! j = Some b ->
          PostmanItem._id a = PostmanItem._id b -> i = j).
Proof.
  apply (imported_ids_distinct twin_file
           (default JSON.Null (JSON.parse twin_file))
           (default sample_collection
              (JSON.parse twin_file ≫= PostmanCollection.of_json))
           initial).
  - vm_compute. reflexivity.
  - vm_compute. reflexivity.
Defined.

(** ** The search box *)

Lemma includes_part (s a t b : string) :
  JSString.includes s (a +:+ t +:+ b) = true ->
  JSString.includes s t = true.
Proof.
  rewrite !includes_spec. intros (u & v & ->).
  exists (u +:+ a), (b +:+ v). by rewrite !append_assoc.
Qed.

Lemma filter_sublist_impl {A : Type} (f g : A -> bool) (l : list A) :
  (forall x, f x = true -> g x = true) ->
  sublist (List.filter f l) (List.filter g l).
Proof.
  intros Hfg. induction l as [|x l IH]; [constructor|].
  simpl. destruct (f x) eqn:Hf.
  - rewrite (Hfg x Hf). by constructor.
  - destruct (g x); [by constructor | done].
Qed.

Lemma elem_of_List_filter {A : Type} (f : A -> bool) (l : list A) (x : A) :
  x ∈ List.filter f l <-> x ∈ l /\ f x = true.
Proof.
  induction l as [|y l IH]; simpl.
  - split; [by intros ?%elem_of_nil | by intros [?%elem_of_nil _]].
  - destruct (f y) eqn:Hy; rewrite ?elem_of_cons, IH; split.
    + intros [->|[? ?]]; [split; [by left | done] | split; [by right | done]].
    + intros [[->|?] ?]; [by left | by right].
    + intros [? ?]. split; [by right | done].
    + intros [[->|?] ?]; [congruence | done].
Qed.

Lemma search_onChange_run (value : string) (s : AppState) :
  search_onChange value s = (Normal (), setSearchQuery value s, []).
Proof. reflexivity. Qed.

(** X12. Typing more into the search box only narrows the list: when
    the new search text has the old one inside it (characters added
    before, after, or both), the requests listed are a sub-list of the
    ones listed before, in the same order. Stated for names and search
    text in ASCII, where lower-casing a text lower-cases each of its
    parts. *)
Theorem search_narrows (s : AppState) (before query after : string) :
  is_ascii (before +:+ query +:+ after) = true ->
  ascii_names s = true ->
  sublist
    (filteredItems
       (state_of (search_onChange (before +:+ query +:+ after) s)))
    (filteredItems (state_of (search_onChange query s))).
Proof.
  intros _ _. rewrite !search_onChange_run. unfold state_of, filteredItems. cbn.
  destruct (collection s) as [c|]; [|constructor].
  apply filter_sublist_impl. intros item.
  rewrite !toLowerCase_append. apply includes_part.
Qed.

Lemma search_narrows_witness :
  sublist
    (filteredItems
       (state_of (search_onChange ("Re" +:+ "bo" +:+ "ot") (app sample_page))))
    (filteredItems (state_of (search_onChange "bo" (app sample_page)))).
Proof.
  apply (search_narrows (app sample_page) "Re" "bo" "ot").
  - vm_compute. reflexivity.
  - vm_compute. reflexivity.
Defined.

(** X13. A request is always found by (part of) its own name, typed in
    any mix of upper and lower case: if the search text agrees, up to
    the case of A-Z, with a part of the name of a request of the loaded
    collection, that request is listed, and the row made for it is
    there to click. Stated for a name and a search text in ASCII. *)
Theorem search_finds_by_name (s : AppState) (c : PostmanCollection.t)
  (item : PostmanItem.t) (query before part after : string) :
  is_ascii query = true ->
  is_ascii (PostmanItem.name item) = true ->
  collection s = Some c ->
  item ∈ PostmanCollection.item c ->
  PostmanItem.name item = before +:+ part +:+ after ->
  JSString.toLowerCase query = JSString.toLowerCase part ->
  item ∈ filteredItems (state_of (search_onChange query s))
  /\ exists index, (item, index) ∈ rows (state_of (search_onChange query s)).
Proof.
  intros _ _ Hc Hin Hname Hq. rewrite search_onChange_run.
  unfold state_of. cbn [fst snd].
  assert (item ∈ filteredItems (setSearchQuery query s)) as Hshown.
  { unfold filteredItems. cbn. rewrite Hc.
    apply elem_of_List_filter. split; [done|].
    rewrite Hname, Hq, !toLowerCase_append.
    apply includes_spec. by eexists _, _. }
  split; [done|].
  exists (originalIndex c item).
  assert (collection (setSearchQuery query s) = Some c) as Hc' by exact Hc.
  unfold rows. rewrite Hc'.
  by apply (list_elem_of_fmap_2 (fun item => (item, originalIndex c item))).
Qed.

Lemma search_finds_by_name_witness :
  sample_second
    ∈ filteredItems (state_of (search_onChange "BOOT" (app sample_page)))
  /\ exists index,
      (sample_second, index)
        ∈ rows (state_of (search_onChange "BOOT" (app sample_page))).
Proof.
  apply (search_finds_by_name (app sample_page) sample_loaded sample_second
           "BOOT" "Re" "boot" "").
  - vm_compute. reflexivity.
  - vm_compute. reflexivity.
  - vm_compute. reflexivity.
  - apply (list_elem_of_lookup_2 _ 1). vm_compute. reflexivity.
  - vm_compute. reflexivity.
  - vm_compute. reflexivity.
Defined.

(** ** Which events write which fields *)

(** X14. Every field of the page's state has its own writers. Over any
    sequence of events: the loaded collection changes only when a file
    read completes (so what is typed into the URL field, a send or an
    analysis never alters a request of the collection); the selection
    changes only by an import or a click on a row; the search text only
    by typing into the search box; the response and the sending flag
    only by a send and its timer; the analysis text, error and busy flag
    only by an analysis and its completion. *)
Theorem fields_have_own_writers (env : Env) (evs : list Event)
  (p p' : Page) :
  steps env evs p = Some p' ->
  (Forall (fun ev => writes_collection ev = false) evs ->
   collection (app p') = collection (app p))
  /\ (Forall (fun ev => writes_selection ev = false) evs ->
      selectedItemId (app p') = selectedItemId (app p))
  /\ (Forall (fun ev => writes_search ev = false) evs ->
      searchQuery (app p') = searchQuery (app p))
  /\ (Forall (fun ev => writes_send ev = false) evs ->
      response (app p') = response (app p)
      /\ isSending (app p') = isSending (app p))
  /\ (Forall (fun ev => writes_analysis ev = false) evs ->
      geminiResponse (app p') = geminiResponse (app p)
      /\ isLoadingGemini (app p') = isLoadingGemini (app p)
      /\ geminiError (app p') = geminiError (app p)).
Proof.
  revert p. induction evs as [|ev evs IH]; intros p Hsteps.
  - injection Hsteps as <-. by repeat split.
  - cbn [steps] in Hsteps.
    destruct (step env ev p) as [q|] eqn:Hstep; [|done].
    cbn [mbind option_bind] in Hsteps.
    destruct (IH q Hsteps) as (Hc & Hi & Hq & Hs & Ha).
    destruct (step_frames env ev p q Hstep) as (Fc & Fi & Fq & Fs & Fa & _).
    split; [|split; [|split; [|split]]];
      intros [Hev Hall]%Forall_cons.
    + rewrite (Hc Hall). by destruct ev.
    + rewrite (Hi Hall). by destruct ev.
    + rewrite (Hq Hall). by destruct ev.
    + destruct (Hs Hall) as [-> ->]. by destruct ev.
    + destruct (Ha Hall) as (-> & -> & ->). by destruct ev.
Qed.

Lemma fields_have_own_writers_witness :
  collection (app busy_page) = collection (app sample_page)
  /\ selectedItemId (app busy_page) = selectedItemId (app sample_page)
  /\ geminiError (app busy_page) = geminiError (app sample_page).
Proof.
  destruct (fields_have_own_writers sample_env busy_events sample_page
              busy_page) as (Hc & Hi & _ & _ & Ha).
  - vm_compute. reflexivity.
  - split; [|split].
    + apply Hc. repeat constructor.
    + apply Hi. repeat constructor.
    + apply Ha. repeat constructor.
Defined.

(** ** What the application asks of the platform *)

Lemma step_history (env : Env) (ev : Event) (p p' : Page) :
  step env ev p = Some p' ->
  exists es, history p' = history p ++ es /\ Forall (expected env) es.
Proof.
  intros Hstep. destruct ev; step_inv Hstep.
  all: try (subst p'; eexists; split; [reflexivity|];
            repeat constructor; cbn; auto; done).
  - (* a read completes *)
    destruct Hstep as [[_ ->] | (v & json & _ & _ & ->)];
      (eexists; split; [reflexivity|]); by repeat constructor.
  - (* Analyze is clicked *)
    subst p'. eexists. split; [reflexivity|].
    unfold effects_of. rewrite callGeminiAPI_run.
    destruct (unconfigured _) eqn:Hkey; cbn; [constructor|].
    apply unconfigured_spec in Hkey.
    repeat constructor; [done|]. by eexists.
Qed.

Lemma count_fetches_expected (env : Env) (es : list Effect) :
  ~ configured env -> Forall (expected env) es -> count_fetches es = 0.
Proof.
  intros Hkey. unfold count_fetches. induction 1 as [|e es He _ IH]; [done|].
  simpl. destruct e; try exact IH. by destruct He.
Qed.

(** X15. Everything the application ever asks of the platform, on any
    run: its only alert is the one for a file that is not a collection;
    its timers are of 800 and of 2000 milliseconds; its only network
    request is a POST of a JSON document to the analysis endpoint
    followed by the configured credential. With no credential
    configured it never makes a network request at all, and a send
    never makes one: it is answered by the timer. *)
Theorem effects_expected (env : Env) (p : Page) :
  reachable env p ->
  Forall (expected env) (history p)
  /\ (~ configured env -> count_fetches (history p) = 0).
Proof.
  intros Hreach.
  assert (Forall (expected env) (history p)) as Hall.
  { induction Hreach as [|p ev p' _ IH Hstep]; [constructor|].
    destruct (step_history env ev p p' Hstep) as (es & -> & Hes).
    by apply Forall_app. }
  split; [done|]. intros Hkey. by apply (count_fetches_expected env).
Qed.

Lemma effects_expected_witness :
  Forall (expected sample_env) (history sent_page)
  /\ (~ configured sample_env -> count_fetches (history sent_page) = 0).
Proof.
  exact (effects_expected sample_env sent_page sent_page_reachable).
Defined.

(** ** The copy indicator *)

Lemma step_copy_inv (env : Env) (ev : Event) (p p' : Page) :
  step env ev p = Some p' -> copy_inv p -> copy_inv p'.
Proof.
  intros Hstep Hinv.
  assert (forall changed s es q,
            editor q = editor p -> copy_timers q = copy_timers p ->
            copy_inv (rendered changed s es q)) as Hrender.
  { intros changed s es q Heq Hct st. cbn. rewrite Heq, Hct.
    unfold render. destruct (selectedItem s) as [item|]; [|done].
    destruct (editor p) as [st0|] eqn:E.
    - intros [= <-]. unfold RequestEditor.update.
      destruct changed; cbn; apply (Hinv st0 E).
    - intros [= <-]. cbn. done. }
  destruct ev; step_inv Hstep.
  all: try (subst p'; by apply Hrender).
  - destruct Hstep as [[_ ->] | (v & json & _ & _ & ->)]; by apply Hrender.
  - subst p'. intros st' [= <-]. cbn. apply (Hinv _ Hev).
  - subst p'. intros st' [= <-]. cbn. apply (Hinv _ Hev).
  - subst p'. intros st' [= <-]. cbn. lia.
  - subst p'. intros st' [= <-]. cbn. done.
Qed.

Lemma reachable_copy_inv (env : Env) (p : Page) :
  reachable env p -> copy_inv p.
Proof.
  induction 1 as [|p ev p' _ IH Hstep]; [by intros st [=]|].
  exact (step_copy_inv env ev p p' Hstep IH).
Qed.

(** X16. The indicator of a copy never gets stuck. On every page the
    application can reach, while the editor shows the indicator a timer
    that clears it is pending; the indicator is raised only by a click
    on the copy button, which always sets such a timer, and an editor
    shown for the first time does not show it. *)
Theorem copied_has_timer (env : Env) (p : Page) :
  reachable env p ->
  (forall st, editor p = Some st -> RequestEditor.copied st = true ->
              0 < copy_timers p
              /\ exists p', step env CopyTimerFired p = Some p'
                            /\ exists st', editor p' = Some st'
                                 /\ RequestEditor.copied st' = false)
  /\ (forall ev p' st',
        step env ev p = Some p' -> editor p' = Some st' ->
        RequestEditor.copied st' = true ->
        ev = ClickCopy
        \/ exists st, editor p = Some st /\ RequestEditor.copied st = true).
Proof.
  intros Hreach. pose proof (reachable_copy_inv env p Hreach) as Hinv.
  split.
  - intros st Hst Hcopied. pose proof (Hinv st Hst Hcopied) as Hpos.
    split; [done|]. unfold step. rewrite Hst. cbn [mbind option_bind].
    rewrite option_guard_True by done. eexists. split; [done|].
    by eexists.
  - intros ev p' st' Hstep Hst' Hcopied.
    assert (forall changed s es q,
              editor q = editor p ->
              editor (rendered changed s es q) = Some st' ->
              exists st, editor p = Some st
                         /\ RequestEditor.copied st = true) as Hrender.
    { intros changed s es q Heq. cbn. rewrite Heq. unfold render.
      destruct (selectedItem s) as [item|]; [|done].
      destruct (editor p) as [st0|].
      - intros [= <-]. exists st0. split; [done|].
        revert Hcopied. unfold RequestEditor.update. by destruct changed.
      - intros [= <-]. done. }
    destruct ev; step_inv Hstep; try (by left); right.
    all: try (subst p'; refine (Hrender _ _ _ _ _ Hst'); reflexivity).
    + destruct Hstep as [[_ ->] | (v & json & _ & _ & ->)];
        refine (Hrender _ _ _ _ _ Hst'); reflexivity.
    + subst p'. injection Hst' as <-. by eexists.
    + subst p'. injection Hst' as <-. by eexists.
    + subst p'. injection Hst' as <-. done.
Qed.

Lemma copied_page_reachable : reachable sample_env copied_page.
Proof.
  apply (steps_reachable sample_env
           [ClickTab RequestEditor.body; ClickCopy] sample_page);
    [apply sample_page_reachable | vm_compute; reflexivity].
Qed.

Lemma copied_has_timer_witness :
  (forall st, editor copied_page = Some st -> RequestEditor.copied st = true ->
              0 < copy_timers copied_page
              /\ exists p', step sample_env CopyTimerFired copied_page = Some p'
                            /\ exists st', editor p' = Some st'
                                 /\ RequestEditor.copied st' = false)
  /\ (forall ev p' st',
        step sample_env ev copied_page = Some p' -> editor p' = Some st' ->
        RequestEditor.copied st' = true ->
        ev = ClickCopy
        \/ exists st, editor copied_page = Some st
                      /\ RequestEditor.copied st = true).
Proof.
  exact (copied_has_timer sample_env copied_page copied_page_reachable).
Defined.

(** ** The URL field *)

(** X17. What a click on a row does to the URL field. On a page the
    application can reach, a click on a row leaves the editor shown, on
    the request now selected. If the click moves the selection, the URL
    field shows the URL of the request now selected, and whatever had
    been typed into the field is dropped; if the row's request is the
    one already selected, the editor is left as it was, typed URL
    included. In both cases the collection is as before: the typed URL
    was never stored. *)
Theorem url_follows_selection (env : Env) (p p' : Page) (k : nat) :
  reachable env p ->
  step env (ClickRow k) p = Some p' ->
  exists item st st',
    editor p = Some st
    /\ editor p' = Some st'
    /\ selectedItem (app p') = Some item
    /\ collection (app p') = collection (app p)
    /\ (selectedItemId (app p') <> selectedItemId (app p) ->
        RequestEditor.url st'
        = url_text (PostmanRequest.url (PostmanItem.request item)))
    /\ (selectedItemId (app p') = selectedItemId (app p) -> st' = st).
Proof.
  intros Hreach Hstep.
  pose proof (reachable_selection_inv env p Hreach) as Hinv.
  pose proof Hstep as Hev. step_inv Hev. rename x into row, x0 into index.
  rename Hev0 into Hrow.
  unfold selection_inv in Hinv.
  destruct (collection (app p)) as [c|] eqn:Hc;
    [|unfold rows in Hrow; by rewrite Hc in Hrow].
  destruct Hinv as (i & Hi & Hrange & Hed).
  destruct (rows_index_in_range (app p) c k row index Hc Hrow)
    as (j & -> & Hj).
  destruct (lookup_lt_is_Some_2 _ _ Hj) as [item Hitem].
  assert (PostmanCollection.item c <> []) as Hne
      by (intros Hnil; rewrite Hnil in Hj; cbn in Hj; lia).
  destruct (proj2 Hed Hne) as [st Hst].
  assert (selectedItem (setSelectedItemId (Some (Z.of_nat j)) (app p))
          = Some item) as Hsel.
  { destruct (selectedItem_in_range
                (setSelectedItemId (Some (Z.of_nat j)) (app p)) c j)
      as [-> _]; [exact Hc | done | by left | done]. }
  exists item, st.
  subst p'. cbn [editor app rendered]. unfold render. rewrite Hsel, Hst.
  eexists. split; [done|]. split; [done|]. split; [done|].
  split; [exact Hc|]. cbn [selectedItemId setSelectedItemId].
  split.
  - intros Hmoved. rewrite bool_decide_false by congruence. done.
  - intros Hsame. rewrite bool_decide_true by congruence. done.
Qed.

Lemma busy_page_reachable : reachable sample_env busy_page.
Proof.
  apply (steps_reachable sample_env busy_events sample_page);
    [apply sample_page_reachable | vm_compute; reflexivity].
Qed.

Lemma url_follows_selection_witness :
  exists item st st',
    editor busy_page = Some st
    /\ editor busy_page_next = Some st'
    /\ selectedItem (app busy_page_next) = Some item
    /\ collection (app busy_page_next) = collection (app busy_page)
    /\ (selectedItemId (app busy_page_next) <> selectedItemId (app busy_page) ->
        RequestEditor.url st'
        = url_text (PostmanRequest.url (PostmanItem.request item)))
    /\ (selectedItemId (app busy_page_next) = selectedItemId (app busy_page) ->
        st' = st).
Proof.
  apply (url_follows_selection sample_env busy_page busy_page_next 0).
  - exact busy_page_reachable.
  - vm_compute. reflexivity.
Defined.

(** ** The upload flag *)

(** X18. The upload flag is lowered by every read that completes: the
    read of a collection, the read of a text that is not JSON, and the
    read of a JSON text that is no collection because reading
    [json.item] or mapping over it raises (the [finally] of the
    callback). In the last two cases the alert is shown and the
    collection is kept. On every page the application can reach the
    flag is up only while a read is pending. It is a flag and not a
    count: with two files chosen in a row, the first read to complete
    lowers it while the other is still pending. *)
Theorem upload_flag_follows_reads (env : Env) (p : Page) :
  reachable env p ->
  (isUploading (app p) = true -> reads p <> [])
  /\ (forall k p',
        step env (FileRead k) p = Some p' ->
        isUploading (app p') = false
        /\ length (reads p') + 1 = length (reads p))
  /\ (forall k result,
        reads p !! k = Some result ->
        match JSON.parse result with
        | Some v => enrichable v = false
        | None => True
        end ->
        exists p',
          step env (FileRead k) p = Some p'
          /\ isUploading (app p') = false
          /\ collection (app p') = collection (app p)
          /\ history p'
             = history p ++ [Alert "Invalid Postman Collection JSON"])
  /\ (forall f p',
        step env (ChooseFile (Some f)) p = Some p' ->
        isUploading (app p') = true /\ reads p' = reads p ++ [f]).
Proof.
  intros Hreach. split; [|split; [|split]].
  - intros Hup Hnil.
    rewrite (reachable_upload_inv env p Hreach Hnil) in Hup. discriminate.
  - intros k p' Hstep. step_inv Hstep.
    assert (length (delete k (reads p)) + 1 = length (reads p)) as Hlen.
    { rewrite length_delete by (by eexists).
      apply lookup_lt_Some in Hev. lia. }
    destruct Hstep as [[_ ->] | (v & json & _ & _ & ->)]; cbn;
      rewrite app_nil_r; by split.
  - intros k result Hk Hraises. unfold step. rewrite Hk.
    cbn [mbind option_bind]. unfold run.
    assert (reader_onload result (app p)
            = (Normal tt, setIsUploading false (app p),
               [Alert "Invalid Postman Collection JSON"])) as ->.
    { destruct (JSON.parse result) as [v|] eqn:Hv.
      - exact (reader_onload_raises _ _ _ Hv Hraises).
      - exact (reader_onload_malformed _ _ Hv). }
    cbn [mbind option_bind]. eexists. split; [reflexivity|].
    by repeat split.
  - intros f p' Hstep. step_inv Hstep. subst p'. by split.
Qed.

Lemma two_reads_page_reachable : reachable sample_env two_reads_page.
Proof.
  apply (steps_reachable sample_env
           [ChooseFile (Some sample_file); ChooseFile (Some "{}")]
           start_page);
    [apply reachable_start | vm_compute; reflexivity].
Qed.

Lemma upload_flag_follows_reads_witness :
  isUploading (app two_reads_page) = true
  /\ reads two_reads_page = [sample_file; "{}"]
  /\ exists p',
       step sample_env (FileRead 1) two_reads_page = Some p'
       /\ isUploading (app p') = false
       /\ collection (app p') = collection (app two_reads_page)
       /\ history p'
          = history two_reads_page
            ++ [Alert "Invalid Postman Collection JSON"].
Proof.
  split; [vm_compute; reflexivity|]. split; [vm_compute; reflexivity|].
  destruct (upload_flag_follows_reads sample_env two_reads_page
              two_reads_page_reachable) as (_ & _ & Hraises & _).
  apply (Hraises 1 "{}"); vm_compute; reflexivity.
Defined.
